(** * A shallow embedding of the Kubernetes REST client, the label sets and
      the Vagrant cloud provider

    - [client]: pkg/client (doRequest, rawRequest, the Update* wrappers);
    - [labels]: pkg/labels/labels.go (Set.String);
    - [vagrant_cloud]: the Salt-backed minion discovery (saltMinionsByRole,
      List).

    Go values are modelled as follows: []byte and string as [string] (a
    sequence of bytes), int as [Z], uint64 as [N], a map[string]string as
    [gmap string string], a nil-able result as [option].  Calls that leave
    the process (the HTTP client, reading a body, logging) are sequenced in a
    small state monad that records them in a trace. *)

From Stdlib Require Import ZArith NArith String Ascii List Bool Lia.
From Stdlib Require Import DecimalString.
From stdpp Require Import base option list gmap strings fin_maps sorting.

Local Open Scope Z_scope.

(** []byte, read as the string of its bytes. *)
Abbreviation bytes := string (only parsing).

(* ===================================================================== *)
(** ** pkg/api: the declarations the client reads *)
(* ===================================================================== *)

Module api.

(** Modelled from the spec: api.Status is declared outside the files at
    hand.  It is the DomainStatus payload [{statusKind, message, details}];
    the field the client inspects is the kind, [status.Status] in Go. *)
Record Status := mkStatus {
  status : string;
  message : string;
  details : string
}.

(** The zero value [var status api.Status]. *)
Definition zeroStatus : Status := mkStatus "" "" "".

(** Modelled from the spec: the resource types are declared outside the
    files at hand.  The client reads the ID and the resource version
    marker (a uint64); every other field travels as an opaque payload. *)
Record Object (Fields : Type) := mkObject {
  ID : string;
  ResourceVersion : N;
  fields : Fields
}.
Arguments mkObject {Fields}.
Arguments ID {Fields}.
Arguments ResourceVersion {Fields}.
Arguments fields {Fields}.

#[global] Instance Object_inhabited `{Inhabited Fields} : Inhabited (Object Fields) :=
  populate (mkObject "" 0%N inhabitant).

End api.

(** Go's [error] values met in this code: the client's own [StatusErr], the
    messages built with fmt.Errorf or errors.New, and errors handed back by
    library calls
(net/http, io/ioutil, api.DecodeInto), kept by their message. *)
Inductive error :=
| StatusErr (s : api.Status)
| Errorf (msg : string)
| LibErr (msg : string).

(* ===================================================================== *)
(** ** net/http, as far as the client uses it *)
(* ===================================================================== *)

Module http.

Record Request := mkRequest {
  Method : string;
  URL : string;
  ReqBody : option bytes;
  BasicAuth : option (string * string)
}.

(** What ioutil.ReadAll will find in a response body: the bytes it can
    read and the error, if any, that stops the read. *)
Record ReadCloser := mkBody {
  content : bytes;
  readErr : option error
}.

Record Response := mkResponse {
  StatusCode : Z;
  Status : string;
  Body : ReadCloser
}.

(** An http.Client together with the remote end: the answer to a request
    is a response or a network-level error. *)
Definition Client := Request -> Response + error.

Definition SetBasicAuth (username password : string) (r : Request) : Request :=
  mkRequest (Method r) (URL r) (ReqBody r) (Some (username, password)).

Definition StatusOK : Z := 200.
Definition StatusPartialContent : Z := 206.
Definition StatusConflict : Z := 409.

End http.

(* ===================================================================== *)
(** ** Effects: a trace of the calls that leave the client *)
(* ===================================================================== *)

Inductive Event :=
| EvDo (request : http.Request)      (* httpClient.Do(request) *)
| EvReadAll                          (* ioutil.ReadAll(response.Body) *)
| EvClose                            (* response.Body.Close() *)
| EvDecodeInto (body : bytes)        (* api.DecodeInto(body, _) *)
| EvInfof (msg : string).            (* glog.Infof *)

Definition M (A : Type) : Type := list Event -> A * list Event.

#[export] Instance M_ret : MRet M := fun A x t => (x, t).
#[export] Instance M_bind : MBind M :=
  fun A B f m t => let '(a, t') := m t in f a t'.

Definition emit (e : Event) : M unit := fun t => (tt, t ++ [e]).

(** The number of requests handed to the transport in a trace. *)
Definition isDo (e : Event) : bool :=
  match e with EvDo _ => true | _ => false end.

Definition sends (t : list Event) : nat := length (List.filter isDo t).

(** A target of api.DecodeInto: decoding rewrites the target and may fail. *)
Class Decodable (T : Type) := DecodeInto : bytes -> T -> T * option error.

(** The line feed that ends a log line. *)
Definition newline : string := String "010"%char "".

(** fmt's %d on an int. *)
Definition Sprintd (n : Z) : string := NilZero.string_of_int (Z.to_int n).

Module client.

Record AuthInfo := mkAuthInfo {
  User : string;
  Password : string
}.

Record RESTClient := mkRESTClient {
  host : string;
  auth : option AuthInfo;
  httpClient : http.Client;
  Sync : bool;
  PollPeriod : Z;
  Timeout : Z;
  Prefix : string
}.

Definition second : Z := 1000000000.

Definition NewRESTClient (host : string) (auth : option AuthInfo)
    (prefix : string) (transport : http.Client) : RESTClient :=
  mkRESTClient host auth transport false (second * 2) (second * 20) prefix.

Definition New (host : string) (auth : option AuthInfo)
    (transport : http.Client) : RESTClient :=
  NewRESTClient host auth "/api/v1beta1/" transport.

Definition makeURL (c : RESTClient) (path : string) : string :=
  host c +:+ Prefix c +:+ path.

Section Requests.

(** api.StatusSuccess, a constant of pkg/api. *)
Variable StatusSuccess : string.
(** fmt's %#v on the request. *)
Variable GoString : http.Request -> string.
(** http.NewRequest: it refuses a malformed method or URL. *)
Variable NewRequest : string -> string -> option bytes -> http.Request + error.
Context `{decodeStatus : Decodable api.Status}.

Definition httpDo (c : RESTClient) (request : http.Request)
    : M (http.Response + error) :=
  _ ← emit (EvDo request); mret (httpClient c request).

Definition ReadAll (b : http.ReadCloser) : M (bytes * option error) :=
  _ ← emit EvReadAll; mret (http.content b, http.readErr b).

Definition Close (b : http.ReadCloser) : M unit := emit EvClose.

Definition decodeInto `{decodeTarget : Decodable T} (body : bytes) (target : T)
    : M (T * option error) :=
  _ ← emit (EvDecodeInto body); mret (DecodeInto body target).

Definition Infof (msg : string) : M unit := emit (EvInfof msg).

Definition requestFailed (request : http.Request)
    (response : http.Response) (body : bytes) : error :=
  Errorf ("request [" +:+ GoString request +:+ "] failed ("
          +:+ Sprintd (http.StatusCode response) +:+ ") "
          +:+ http.Status response +:+ ": " +:+ body).

(** Go's defer: [cleanup] runs when [body] returns, whatever it returns. *)
Definition deferring {A : Type} (cleanup : M unit) (body : M A) : M A :=
  out ← body; _ ← cleanup; mret out.

Definition withAuth (c : RESTClient) (request : http.Request) : http.Request :=
  match auth c with
  | Some a => http.SetBasicAuth (User a) (Password a) request
  | None => request
  end.

Definition doRequest (c : RESTClient) (request : http.Request)
    : M (option bytes * option error) :=
  let request := withAuth c request in
  r ← httpDo c request;
  match r with
  | inr err => mret (None, Some err)
  | inl response =>
    deferring (Close (http.Body response)) (
      '(body, err) ← ReadAll (http.Body response);
      match err with
      | Some e => mret (Some body, Some e)
      | None =>
        (* Did the server give us a status response? *)
        '(status, derr) ← decodeInto body api.zeroStatus;
        let isStatusResponse :=
          match derr with
          | None => negb (String.eqb (api.status status) "")
          | Some _ => false
          end in
        let code := http.StatusCode response in
        let rangeFailure : M (option bytes * option error) :=
          mret (None, Some (requestFailed request response body)) in
        if code =? http.StatusConflict then
          (* Return error given by server, if there was one. *)
          if isStatusResponse then mret (None, Some (StatusErr status))
          else rangeFailure (* fallthrough *)
        else if (code <? http.StatusOK) || (code >? http.StatusPartialContent) then
          rangeFailure
        else if isStatusResponse
                && negb (String.eqb (api.status status) StatusSuccess) then
          mret (None, Some (StatusErr status))
        else mret (Some body, err)
      end)
  end.

(** [c] sends [request], a response arrives, and its body reads in full as
    [body]. *)
Definition receives (c : RESTClient) (request : http.Request)
    (response : http.Response) (body : bytes) : Prop :=
  httpClient c (withAuth c request) = inl response
  /\ http.Body response = http.mkBody body None.

(** [body] decodes cleanly as the status [st], whose kind is not empty. *)
Definition decodesAs (body : bytes) (st : api.Status) : Prop :=
  DecodeInto body api.zeroStatus = (st, None) /\ api.status st <> "".

(** No status is found in [body]: the decode fails or leaves the kind
    empty. *)
Definition noStatus (body : bytes) : Prop := forall st, ~ decodesAs body st.

(** The transport range [200, 206]. *)
Definition inRange (code : Z) : Prop :=
  http.StatusOK <= code <= http.StatusPartialContent.

Definition bytesOf (body : option bytes) : bytes := default "" body.

Definition rawRequest `{decodeTarget : Decodable T} (c : RESTClient) (method path : string)
    (requestBody : option bytes) (target : option T)
    : M (option bytes * option error * option T) :=
  match NewRequest method (makeURL c path) requestBody with
  | inr err => mret (None, Some err, target)
  | inl request =>
    '(body, err) ← doRequest c request;
    match err with
    | Some e => mret (body, Some e, target)
    | None =>
      '(target', err) ←
        match target with
        | Some t =>
          '(t', e) ← decodeInto (bytesOf body) t; mret (Some t', e)
        | None => mret (None, err)
        end;
      _ ← match err with
          | Some _ => Infof ("Failed to parse: " +:+ bytesOf body +:+ newline)
          | None => mret tt
          end;
      mret (body, err, target')
    end
  end.

End Requests.

Section Resources.

(** The fields of api.Pod, api.ReplicationController and api.Service
    beyond the ID and the resource version. *)
Variables PodFields ControllerFields ServiceFields : Type.
Context `{Inhabited PodFields, Inhabited ControllerFields,
          Inhabited ServiceFields}.

Local Abbreviation Pod := (api.Object PodFields).
Local Abbreviation ReplicationController := (api.Object ControllerFields).
Local Abbreviation Service := (api.Object ServiceFields).

(** fmt's %v on a resource. *)
Variable Sprintv : forall T : Type, T -> string.

(** c.Put().Path(resource).Path(id).Body(obj).Do().Into(&result): the
    request builder is declared outside the files at hand; whatever it
    does, it does in [M], from the client, the two path segments, the
    object sent and the zero-valued result. *)
Variable putInto :
  forall T : Type, RESTClient -> string -> string -> T -> T -> M (T * option error).

Definition invalidUpdate {T : Type} (obj : T) : error :=
  Errorf ("invalid update object, missing resource version: "
          +:+ Sprintv T obj).

Definition UpdatePod (c : RESTClient) (pod : Pod) : M (Pod * option error) :=
  let result : Pod := inhabitant in
  if (api.ResourceVersion pod =? 0)%N then
    mret (result, Some (invalidUpdate pod))
  else putInto Pod c "pods" (api.ID pod) pod result.

Definition UpdateReplicationController (c : RESTClient)
    (controller : ReplicationController)
    : M (ReplicationController * option error) :=
  let result : ReplicationController := inhabitant in
  if (api.ResourceVersion controller =? 0)%N then
    mret (result, Some (invalidUpdate controller))
  else putInto ReplicationController c "replicationControllers"
         (api.ID controller) controller result.

Definition UpdateService (c : RESTClient) (svc : Service)
    : M (Service * option error) :=
  let result : Service := inhabitant in
  if (api.ResourceVersion svc =? 0)%N then
    mret (result, Some (invalidUpdate svc))
  else putInto Service c "services" (api.ID svc) svc result.

End Resources.

End client.

(* ===================================================================== *)
(** ** Strings: Go's comparison, sort, strings.Join and strings.Split *)
(* ===================================================================== *)

(** [a <= b] on Go strings: byte-wise lexicographic order. *)
Definition string_le (a b : string) : Prop := String.leb a b = true.

#[global] Instance string_le_dec : RelDecision string_le :=
  fun a b => decide (String.leb a b = true).

(** sort.Strings / sort.StringSlice.Sort: the ascending rearrangement. *)
Definition sortStrings (l : list string) : list string := merge_sort string_le l.

(** strings.Join(parts, sep). *)
Definition Join (parts : list string) (sep : string) : string :=
  String.concat sep parts.

(** Does the byte [c] occur in [s]? *)
Fixpoint occurs (c : ascii) (s : string) : bool :=
  match s with
  | EmptyString => false
  | String a s' => Ascii.eqb a c || occurs c s'
  end.

(** strings.Split(s, sep) for a one-byte separator: the pieces between the
    separators, one more piece than there are separators. *)
Fixpoint Split (s : string) (sep : ascii) : list string :=
  match s with
  | EmptyString => [EmptyString]
  | String a s' =>
    if Ascii.eqb a sep then EmptyString :: Split s' sep
    else match Split s' sep with
         | piece :: pieces => String a piece :: pieces
         | [] => [String a EmptyString]
         end
  end.

(* ===================================================================== *)
(** ** pkg/labels/labels.go *)
(* ===================================================================== *)

Module labels.

(** type Set map[string]string *)
Abbreviation LabelSet := (gmap string string) (only parsing).

(** The body of Set.String once the [range] over the map has visited the
    entries in the order [visited]. *)
Definition entryText (entry : string * string) : string :=
  let '(key, value) := entry in key +:+ "=" +:+ value.

Definition StringOf (visited : list (string * string)) : string :=
  let selector := entryText <$> visited in
  Join (sortStrings selector) ",".

(** Set.String: Go leaves the order of the [range] open; [map_to_list] is
    one such order. *)
Definition String (ls : LabelSet) : string := StringOf (map_to_list ls).

(** Set.Get *)
Definition Get (ls : LabelSet) (label : string) : string :=
  default "" (ls !! label).

(** Modelled from the spec: the inverse the round trip speaks of, "split
    back on commas and =".  The text is split on commas, every piece on
    '='; a piece that falls into exactly a key and a value is an entry. *)
Definition splitBack (s : string) : list (list string) :=
  (fun piece => Split piece "=") <$> Split s ",".

Definition entryOf (pieces : list string) : option (string * string) :=
  match pieces with
  | [key; value] => Some (key, value)
  | _ => None
  end.

Definition readEntry (piece : string) : option (string * string) :=
  entryOf (Split piece "=").

Definition fromString (s : string) : LabelSet :=
  list_to_map (omap entryOf (splitBack s)).

(** A key or value the round trip admits: not empty, and free of ',' and
    '='. *)
Definition plain (s : string) : bool :=
  negb (String.eqb s "") && negb (occurs "," s) && negb (occurs "=" s).

Definition plainEntry (entry : string * string) : Prop :=
  plain (fst entry) = true /\ plain (snd entry) = true.

Definition plainSet (ls : LabelSet) : Prop :=
  map_Forall (fun key value => plainEntry (key, value)) ls.

End labels.

(* ===================================================================== *)
(** ** The Vagrant cloud provider *)
(* ===================================================================== *)

Module vagrant_cloud.

Local Open Scope nat_scope.

Record VagrantCloud := mkVagrantCloud {
  saltURL : string;
  saltUser : string;
  saltPass : string;
  saltAuth : string
}.

Definition newVagrantCloud : VagrantCloud :=
  mkVagrantCloud "http://127.0.0.1:8000" "vagrant" "vagrant" "pam".

Record SaltToken := mkSaltToken {
  Token : string;
  User : string;
  EAuth : string
}.

Record SaltLoginResponse := mkSaltLoginResponse { Data : list SaltToken }.

Record SaltMinion := mkSaltMinion {
  Roles : list string;
  IP : string;
  Host : string
}.

(** type SaltMinions map[string]SaltMinion, as the entries in the order a
    [range] visits them. *)
Definition SaltMinions := list (string * SaltMinion).

Record SaltMinionsResponse := mkSaltMinionsResponse { Minions : list SaltMinions }.

(** The Salt REST API as the provider meets it: what POST /login and
    GET /minions answer once the body is read and unmarshalled, or the error
    of that read or unmarshal. *)
Record SaltAPI := mkSaltAPI {
  postLogin : string -> string -> string -> string -> SaltLoginResponse + error;
  getMinions : string -> string -> SaltMinionsResponse + error
}.

(** sort.Search(n, f): binary search for the smallest index in [0, n) at
    which [f] holds, [n] if there is none.  [fuel] bounds the iterations of
    the loop [for i < j]; [n] of them are enough, as [j - i] shrinks in
    each. *)
Fixpoint searchLoop (fuel : nat) (f : nat -> bool) (i j : nat) : nat :=
  match fuel with
  | O => i
  | S fuel' =>
    if i <? j then
      let h := i + (j - i) / 2 in
      if negb (f h) then searchLoop fuel' f (h + 1) j
      else searchLoop fuel' f i h
    else i
  end.

Definition Search (n : nat) (f : nat -> bool) : nat := searchLoop n f 0 n.

(** sort.SearchStrings(a, x) = Search(len(a), a[i] >= x). *)
Definition SearchStrings (a : list string) (x : string) : nat :=
  Search (length a) (fun i => String.leb x (default "" (a !! i))).

(** sort.Strings(value.Roles): the slice is sorted in place. *)
Definition sortRoles (value : SaltMinion) : SaltMinion :=
  mkSaltMinion (sortStrings (Roles value)) (IP value) (Host value).

(** The test of the loop: pos := sort.SearchStrings(value.Roles, role);
    pos < len(value.Roles). *)
Definition roleInRange (role : string) (value : SaltMinion) : bool :=
  let pos := SearchStrings (Roles value) role in
  pos <? length (Roles value).

(** saltMinionsByRole.  sort.Strings sorts the backing array of
    [value.Roles], which the caller's slice shares: the function hands back
    the filtered minions and the caller's minions as the loop leaves them. *)
Definition saltMinionsByRole (minions : list SaltMinion) (role : string)
    : list SaltMinion * list SaltMinion :=
  foldl (fun '(filteredMinions, seen) value =>
           let value := sortRoles value in
           if roleInRange role value
           then (filteredMinions ++ [value], seen ++ [value])
           else (filteredMinions, seen ++ [value]))
        ([], []) minions.

(** A call ends with a value, an error, or a run-time panic. *)
Inductive outcome (A : Type) :=
| Value (a : A)
| Failed (e : error)
| Panic.
Arguments Value {A}.
Arguments Failed {A}.
Arguments Panic {A}.

Definition saltMinions (api : SaltAPI) (v : VagrantCloud) (token : SaltToken)
    : outcome (list SaltMinion) :=
  let url := saltURL v +:+ "/minions" in
  match getMinions api url (Token token) with
  | inr err => Failed err
  | inl minionsResp =>
    match Minions minionsResp with
    | [] => Panic
    | first :: _ => Value (snd <$> first)
    end
  end.

Definition saltLogin (api : SaltAPI) (v : VagrantCloud) : SaltToken + error :=
  let url := saltURL v +:+ "/login" in
  match postLogin api url (saltUser v) (saltPass v) (saltAuth v) with
  | inr err => inr err
  | inl loginResp =>
    match Data loginResp with
    | [] => inr (Errorf "No token found in response")
    | token :: _ => inl token
    end
  end.

Definition List (api : SaltAPI) (v : VagrantCloud) (filter : string)
    : outcome (list string) :=
  match saltLogin api v with
  | inr err => Failed err
  | inl token =>
    match saltMinions api v token with
    | Failed err => Failed err
    | Panic => Panic
    | Value minions =>
      let filteredMinions := fst (saltMinionsByRole minions "kubernetes-pool") in
      Value (IP <$> filteredMinions)
    end
  end.

End vagrant_cloud.

(* ===================================================================== *)
(** ** Sample servers, decoders and resources *)
(* ===================================================================== *)

Module samples.

Definition working : api.Status := api.mkStatus "working" "creating" "".

(** A status decoder that knows four bodies. *)
Definition decodeStatus : Decodable api.Status :=
  fun body st =>
    if String.eqb body "working" then (working, None)
    else if String.eqb body "success" then (api.mkStatus "success" "" "", None)
    else if String.eqb body "{}" then (st, None)
    else if String.eqb body "pod-1" then (st, None)
    else (st, Some (LibErr "unexpected end of JSON input")).

(** A target decoder: the target is the ID of a pod. *)
Definition decodeID : Decodable string :=
  fun body target =>
    if String.prefix "pod" body then (body, None)
    else (target, Some (LibErr "json: cannot unmarshal object")).

(** A server that answers every request alike. *)
Definition server (code : Z) (text : string) (body : bytes) : http.Client :=
  fun _ => inl (http.mkResponse code text (http.mkBody body None)).

(** A server that cannot be reached. *)
Definition unreachable : http.Client :=
  fun _ => inr (LibErr "dial tcp: connection refused").

Definition clientOf (transport : http.Client) : client.RESTClient :=
  client.New "http://master" (Some (client.mkAuthInfo "admin" "secret")) transport.

Definition NewRequest (method url : string) (body : option bytes)
    : http.Request + error :=
  if String.eqb method "" then inr (LibErr "net/http: invalid method")
  else inl (http.mkRequest method url body None).

Definition GoString (r : http.Request) : string :=
  http.Method r +:+ " " +:+ http.URL r.

Definition getPod : http.Request :=
  http.mkRequest "GET" "http://master/api/v1beta1/pods/pod-1" None None.

Definition Sprintv (T : Type) (x : T) : string := "{...}".

(** A request builder that sends the object once and gets it back. *)
Definition putInto (T : Type) (c : client.RESTClient) (resource id : string)
    (obj result : T) : M (T * option error) :=
  _ ← emit (EvDo (http.mkRequest "PUT"
                    (client.makeURL c (resource +:+ "/" +:+ id)) None None));
  mret (obj, None).

Definition stale : api.Object unit := api.mkObject "x" 0%N tt.

Definition tiers : gmap string string :=
  <["env" := "prod"]> (<["tier" := "frontend"]> ∅).

Definition saltMaster : vagrant_cloud.SaltMinion :=
  vagrant_cloud.mkSaltMinion ["salt-master"] "10.245.1.2" "kubernetes-master".

Definition salt : vagrant_cloud.SaltAPI :=
  vagrant_cloud.mkSaltAPI
    (fun _ _ _ _ =>
       inl (vagrant_cloud.mkSaltLoginResponse
              [vagrant_cloud.mkSaltToken "6d1b722e" "vagrant" "pam"]))
    (fun _ _ =>
       inl (vagrant_cloud.mkSaltMinionsResponse
              [[("kubernetes-master", saltMaster)]])).

Definition poolMinion : vagrant_cloud.SaltMinion :=
  vagrant_cloud.mkSaltMinion ["kubernetes-pool"] "10.245.2.2" "kubernetes-minion-1".

(** A Salt API that knows the master and one minion of the pool. *)
Definition saltCluster : vagrant_cloud.SaltAPI :=
  vagrant_cloud.mkSaltAPI
    (fun _ _ _ _ =>
       inl (vagrant_cloud.mkSaltLoginResponse
              [vagrant_cloud.mkSaltToken "6d1b722e" "vagrant" "pam"]))
    (fun _ _ =>
       inl (vagrant_cloud.mkSaltMinionsResponse
              [[("kubernetes-master", saltMaster);
                ("kubernetes-minion-1", poolMinion)]])).

End samples.

(* ===================================================================== *)
(** * Properties *)
(* ===================================================================== *)

(** Unfold the trace monad down to pairs. *)
Ltac decide_tests :=
  repeat match goal with
  | |- context [Z.eqb ?a ?b] => destruct (Z.eqb_spec a b)
  | |- context [Z.ltb ?a ?b] => destruct (Z.ltb_spec a b)
  | |- context [String.eqb ?a ?b] => destruct (String.eqb_spec a b)
  end; simpl; try lia; try congruence.

Ltac run_M :=
  unfold mbind, M_bind, mret, M_ret, emit, client.httpDo, client.ReadAll,
    client.Close, client.decodeInto, client.Infof in *; simpl in *.

Section ClientProperties.

Variable StatusSuccess : string.
Variable GoString : http.Request -> string.
Variable NewRequest : string -> string -> option bytes -> http.Request + error.
Context `{decodeStatus : Decodable api.Status}.

Local Abbreviation doRequest := (client.doRequest StatusSuccess GoString).
Local Abbreviation rawRequest := (client.rawRequest StatusSuccess GoString NewRequest).
Local Abbreviation requestFailed := (client.requestFailed GoString).

(** The calls doRequest makes once a response is at hand and its body is
    read: one send, one read, one decode of the status, and the deferred
    Close. *)
Lemma doRequest_trace c request response body t :
  client.receives c request response body ->
  snd (doRequest c request t) =
  t ++ [EvDo (client.withAuth c request); EvReadAll; EvDecodeInto body; EvClose].
Proof.
  intros [Hdo Hbody]. unfold client.doRequest, client.deferring. run_M.
  rewrite Hdo, Hbody. simpl.
  destruct (DecodeInto body api.zeroStatus) as [st derr].
  repeat match goal with |- context [if ?b then _ else _] => destruct b end;
    simpl; rewrite <- ?app_assoc; reflexivity.
Qed.

(** Once a response is at hand and its body is read, the verdict of
    doRequest is decided by the status code and the decoded status. *)
Lemma doRequest_verdict c request response body st derr t :
  client.receives c request response body ->
  DecodeInto body api.zeroStatus = (st, derr) ->
  fst (doRequest c request t) =
  let isStatusResponse :=
    match derr with
    | None => negb (String.eqb (api.status st) "")
    | Some _ => false
    end in
  let code := http.StatusCode response in
  let failed := (None, Some (requestFailed (client.withAuth c request) response body)) in
  if code =? 409 then
    if isStatusResponse then (None, Some (StatusErr st)) else failed
  else if (code <? 200) || (code >? 206) then failed
  else if isStatusResponse && negb (String.eqb (api.status st) StatusSuccess)
       then (None, Some (StatusErr st))
       else (Some body, None).
Proof.
  intros [Hdo Hbody] Hdec. unfold client.doRequest, client.deferring. run_M.
  rewrite Hdo, Hbody. simpl. rewrite Hdec.
  unfold http.StatusConflict, http.StatusOK, http.StatusPartialContent.
  repeat match goal with |- context [if ?b then _ else _] => destruct b end;
    reflexivity.
Qed.

(** When the read of the body fails, doRequest returns what was read and
    the error of the read; nothing is decoded. *)
Lemma doRequest_read_error c request response e t :
  client.httpClient c (client.withAuth c request) = inl response ->
  http.readErr (http.Body response) = Some e ->
  doRequest c request t =
  ((Some (http.content (http.Body response)), Some e),
   t ++ [EvDo (client.withAuth c request); EvReadAll; EvClose]).
Proof.
  intros Hdo Hread. unfold client.doRequest, client.deferring. run_M.
  rewrite Hdo, Hread. simpl. rewrite <- !app_assoc. reflexivity.
Qed.

Lemma noStatus_test body st derr :
  client.noStatus body ->
  DecodeInto body api.zeroStatus = (st, derr) ->
  match derr with
  | None => negb (String.eqb (api.status st) "")
  | Some _ => false
  end = false.
Proof.
  intros Hno Hdec. destruct derr as [e|]; [reflexivity|].
  destruct (String.eqb_spec (api.status st) ""); [reflexivity|].
  exfalso. apply (Hno st). split; assumption.
Qed.

Lemma decodesAs_test body st :
  client.decodesAs body st ->
  negb (String.eqb (api.status st) "") = true.
Proof.
  intros [_ Hkind]. destruct (String.eqb_spec (api.status st) ""); [contradiction|reflexivity].
Qed.

(** C1: a response in the transport range [200, 206] whose body decodes
    cleanly as a status with a non-empty kind other than Success makes
    doRequest return a StatusErr carrying that status, never a success. *)
Theorem doRequest_non_success_status_fails c request response body st t :
  client.receives c request response body ->
  client.decodesAs body st ->
  api.status st <> StatusSuccess ->
  client.inRange (http.StatusCode response) ->
  fst (doRequest c request t) = (None, Some (StatusErr st))
  /\ snd (fst (doRequest c request t)) <> None.
Proof.
  intros Hrecv Hdec Hkind Hrange.
  assert (Hres : fst (doRequest c request t) = (None, Some (StatusErr st))).
  { rewrite (doRequest_verdict _ _ _ _ _ _ _ Hrecv (proj1 Hdec)). simpl.
    rewrite (decodesAs_test _ _ Hdec).
    unfold client.inRange, http.StatusOK, http.StatusPartialContent in Hrange.
    rewrite Z.gtb_ltb. decide_tests. }
  split; [exact Hres|]. rewrite Hres. discriminate.
Qed.

(** C2: on status code 409, a body that decodes as a status with a
    non-empty kind yields a StatusErr carrying that status; a body in which
    no status is found yields the generic request-failed error. *)
Theorem doRequest_conflict c request response body t :
  client.receives c request response body ->
  http.StatusCode response = http.StatusConflict ->
  (forall st, client.decodesAs body st ->
     fst (doRequest c request t) = (None, Some (StatusErr st)))
  /\ (client.noStatus body ->
      fst (doRequest c request t) =
      (None, Some (requestFailed (client.withAuth c request) response body))).
Proof.
  intros Hrecv Hcode. split.
  - intros st Hdec.
    rewrite (doRequest_verdict _ _ _ _ _ _ _ Hrecv (proj1 Hdec)). simpl.
    rewrite (decodesAs_test _ _ Hdec), Hcode. reflexivity.
  - intros Hno. destruct (DecodeInto body api.zeroStatus) as [st derr] eqn:Hdec.
    rewrite (doRequest_verdict _ _ _ _ _ _ _ Hrecv Hdec). simpl.
    rewrite (noStatus_test _ _ _ Hno Hdec), Hcode. reflexivity.
Qed.

(** C9: when the send fails at the network level, doRequest hands that
    error back with a nil body, and the send is the only call it makes: no
    body is read and nothing is decoded. *)
Theorem doRequest_transport_error c request err t :
  client.httpClient c (client.withAuth c request) = inr err ->
  doRequest c request t =
  ((None, Some err), t ++ [EvDo (client.withAuth c request)]).
Proof.
  intros Hdo. unfold client.doRequest. run_M. rewrite Hdo. reflexivity.
Qed.

(** C6: when no status is found in the body (the decode fails or the kind
    is empty), the verdict depends on the status code alone: success with
    the body exactly when the code lies in [200, 206], the generic
    request-failed error otherwise. *)
Theorem doRequest_without_status c request response body t :
  client.receives c request response body ->
  client.noStatus body ->
  fst (doRequest c request t) =
  (if (200 <=? http.StatusCode response) && (http.StatusCode response <=? 206)
   then (Some body, None)
   else (None, Some (requestFailed (client.withAuth c request) response body)))
  /\ (snd (fst (doRequest c request t)) = None
      <-> client.inRange (http.StatusCode response)).
Proof.
  intros Hrecv Hno.
  set (code := http.StatusCode response).
  assert (Hres : fst (doRequest c request t) =
            if (200 <=? code) && (code <=? 206) then (Some body, None)
            else (None, Some (requestFailed (client.withAuth c request) response body))).
  { destruct (DecodeInto body api.zeroStatus) as [st derr] eqn:Hdec.
    rewrite (doRequest_verdict _ _ _ _ _ _ _ Hrecv Hdec). simpl.
    rewrite (noStatus_test _ _ _ Hno Hdec). simpl. fold code.
    rewrite Z.gtb_ltb.
    destruct (Z.eqb_spec code 409), (Z.ltb_spec code 200), (Z.ltb_spec 206 code),
      (Z.leb_spec 200 code), (Z.leb_spec code 206); simpl; try lia; reflexivity. }
  split; [exact Hres|]. rewrite Hres.
  unfold client.inRange, http.StatusOK, http.StatusPartialContent. fold code.
  destruct (Z.leb_spec 200 code), (Z.leb_spec code 206); simpl;
    split; intros Hyp; try discriminate; try lia; reflexivity.
Qed.

(** C7: a status code outside [200, 206], other than a 409 whose body
    carries a decodable status, makes doRequest return a nil body and the
    request-failed error, whose message holds the status code, the status
    text and the raw body. *)
Theorem doRequest_out_of_range c request response body t :
  client.receives c request response body ->
  ~ client.inRange (http.StatusCode response) ->
  ~ (http.StatusCode response = http.StatusConflict
     /\ exists st, client.decodesAs body st) ->
  fst (doRequest c request t) =
  (None,
   Some (Errorf ("request [" +:+ GoString (client.withAuth c request)
                 +:+ "] failed (" +:+ Sprintd (http.StatusCode response)
                 +:+ ") " +:+ http.Status response +:+ ": " +:+ body))).
Proof.
  intros Hrecv Hrange Hconflict.
  destruct (DecodeInto body api.zeroStatus) as [st derr] eqn:Hdec.
  rewrite (doRequest_verdict _ _ _ _ _ _ _ Hrecv Hdec). simpl.
  unfold client.inRange, http.StatusOK, http.StatusPartialContent in Hrange.
  unfold http.StatusConflict in Hconflict. rewrite Z.gtb_ltb.
  destruct (Z.eqb_spec (http.StatusCode response) 409) as [E|E].
  - destruct derr as [e|]; [reflexivity|].
    destruct (String.eqb_spec (api.status st) ""); [reflexivity|].
    exfalso. apply Hconflict. split; [exact E|]. exists st. split; assumption.
  - destruct (Z.ltb_spec (http.StatusCode response) 200);
      destruct (Z.ltb_spec 206 (http.StatusCode response)); simpl;
      try reflexivity; lia.
Qed.

Section Targets.

Context {T : Type} `{decodeTarget : Decodable T}.

(** rawRequest after a successful doRequest: the body is decoded into the
    target once, and a failure of that decode is logged and returned next to
    the body. *)
Lemma rawRequest_decodes c method path requestBody request body (target : T) t t' :
  NewRequest method (client.makeURL c path) requestBody = inl request ->
  doRequest c request t = ((Some body, None), t') ->
  rawRequest c method path requestBody (Some target) t =
  ((Some body, snd (DecodeInto body target), Some (fst (DecodeInto body target))),
   t' ++ EvDecodeInto body ::
     match snd (DecodeInto body target) with
     | Some _ => [EvInfof ("Failed to parse: " +:+ body +:+ newline)]
     | None => []
     end).
Proof.
  intros Hnew Hdo. unfold client.rawRequest. rewrite Hnew. run_M.
  rewrite Hdo. simpl.
  destruct (DecodeInto body target) as [target' [e|]]; simpl.
  - rewrite <- app_assoc. reflexivity.
  - reflexivity.
Qed.

(** C3: a response in [200, 206] whose body fails to decode as a status,
    decodes with an empty kind, or decodes with kind Success makes doRequest
    return the body with no error, and rawRequest fills a supplied target by
    decoding that body into it. *)
Theorem rawRequest_success_fills_target c method path requestBody request
    response body (target : T) t :
  NewRequest method (client.makeURL c path) requestBody = inl request ->
  client.receives c request response body ->
  client.inRange (http.StatusCode response) ->
  client.noStatus body
  \/ (exists st, DecodeInto body api.zeroStatus = (st, None)
                 /\ api.status st = StatusSuccess) ->
  fst (doRequest c request t) = (Some body, None)
  /\ fst (rawRequest c method path requestBody (Some target) t) =
     (Some body, snd (DecodeInto body target),
      Some (fst (DecodeInto body target))).
Proof.
  intros Hnew Hrecv Hrange Hstatus.
  assert (Hres : fst (doRequest c request t) = (Some body, None)).
  { unfold client.inRange, http.StatusOK, http.StatusPartialContent in Hrange.
    destruct (DecodeInto body api.zeroStatus) as [st derr] eqn:Hdec.
    rewrite (doRequest_verdict _ _ _ _ _ _ _ Hrecv Hdec). simpl.
    rewrite Z.gtb_ltb.
    destruct Hstatus as [Hno | (st' & Hst' & Hkind)].
    - rewrite (noStatus_test _ _ _ Hno Hdec). decide_tests.
    - injection Hst' as -> ->. rewrite Hkind, String.eqb_refl, andb_false_r.
      decide_tests. }
  split; [exact Hres|].
  rewrite (rawRequest_decodes c method path requestBody request body target t
             (snd (doRequest c request t))); [reflexivity|exact Hnew|].
  rewrite <- Hres. apply surjective_pairing.
Qed.

(** C5: when doRequest has classified the response as a success and the
    decode of the body into the supplied target fails, rawRequest still
    returns the body; the error it returns next to it is the decode error
    itself, and the failure is logged. *)
Theorem rawRequest_decode_failure_keeps_body c method path requestBody request
    body (target target' : T) e t t' :
  NewRequest method (client.makeURL c path) requestBody = inl request ->
  doRequest c request t = ((Some body, None), t') ->
  DecodeInto body target = (target', Some e) ->
  rawRequest c method path requestBody (Some target) t =
  ((Some body, Some e, Some target'),
   t' ++ [EvDecodeInto body; EvInfof ("Failed to parse: " +:+ body +:+ newline)]).
Proof.
  intros Hnew Hdo Hdec.
  rewrite (rawRequest_decodes _ _ _ _ _ _ _ _ _ Hnew Hdo), Hdec. reflexivity.
Qed.

End Targets.

End ClientProperties.

Section ResourceProperties.

Variables PodFields ControllerFields ServiceFields : Type.
Context `{Inhabited PodFields, Inhabited ControllerFields,
          Inhabited ServiceFields}.
Variable Sprintv : forall T : Type, T -> string.
Variable putInto :
  forall T : Type,
    client.RESTClient -> string -> string -> T -> T -> M (T * option error).

Local Abbreviation UpdatePod := (client.UpdatePod PodFields Sprintv putInto).
Local Abbreviation UpdateReplicationController :=
  (client.UpdateReplicationController ControllerFields Sprintv putInto).
Local Abbreviation UpdateService := (client.UpdateService ServiceFields Sprintv putInto).

(** C4: an update of a resource whose resource version is 0 returns the
    invalid-update error and leaves the trace of calls as it found it: the
    transport is not invoked. *)
Theorem update_version_zero_sends_nothing c
    (pod : api.Object PodFields) (controller : api.Object ControllerFields)
    (svc : api.Object ServiceFields) (t : list Event) :
  (api.ResourceVersion pod = 0%N ->
   UpdatePod c pod t = ((inhabitant, Some (client.invalidUpdate Sprintv pod)), t))
  /\ (api.ResourceVersion controller = 0%N ->
      UpdateReplicationController c controller t =
      ((inhabitant, Some (client.invalidUpdate Sprintv controller)), t))
  /\ (api.ResourceVersion svc = 0%N ->
      UpdateService c svc t =
      ((inhabitant, Some (client.invalidUpdate Sprintv svc)), t)).
Proof.
  unfold client.UpdatePod, client.UpdateReplicationController,
    client.UpdateService.
  repeat split; intros ->; reflexivity.
Qed.

End ResourceProperties.

(** ** Strings *)

Lemma occurs_append c a b : occurs c (a +:+ b) = occurs c a || occurs c b.
Proof.
  induction a as [|x a IH]; simpl; [reflexivity|].
  rewrite IH. apply orb_assoc.
Qed.

Lemma Split_clean sep s : occurs sep s = false -> Split s sep = [s].
Proof.
  induction s as [|a s IH]; simpl; [reflexivity|].
  intros Hocc. apply orb_false_elim in Hocc as [Ha Hs].
  rewrite Ha, (IH Hs). reflexivity.
Qed.

Lemma Split_append sep s rest :
  occurs sep s = false ->
  Split (s +:+ String sep rest) sep = s :: Split rest sep.
Proof.
  induction s as [|a s IH]; simpl.
  - intros _. rewrite Ascii.eqb_refl. reflexivity.
  - intros Hocc. apply orb_false_elim in Hocc as [Ha Hs].
    rewrite Ha, (IH Hs). reflexivity.
Qed.

(** Splitting undoes joining when no part holds the separator. *)
Lemma Split_Join sep parts :
  parts <> [] ->
  Forall (fun part => occurs sep part = false) parts ->
  Split (Join parts (String sep "")) sep = parts.
Proof.
  intros Hne Hall. induction Hall as [|part parts Hpart Hall IH]; [contradiction|].
  unfold Join in *. destruct parts as [|next parts].
  - simpl. apply Split_clean, Hpart.
  - change (String.concat (String sep "") (part :: next :: parts))
      with (part +:+ String sep (String.concat (String sep "") (next :: parts))).
    rewrite (Split_append _ _ _ Hpart), IH; [reflexivity|discriminate].
Qed.

Lemma string_le_trans s1 s2 s3 :
  string_le s1 s2 -> string_le s2 s3 -> string_le s1 s3.
Proof.
  unfold string_le, String.leb.
  revert s2 s3. induction s1 as [|a1 s1 IH]; intros [|a2 s2] [|a3 s3]; simpl;
    try congruence.
  unfold Ascii.compare.
  destruct (N.compare_spec (N_of_ascii a1) (N_of_ascii a2)) as [E12|L12|G12];
    destruct (N.compare_spec (N_of_ascii a2) (N_of_ascii a3)) as [E23|L23|G23];
    destruct (N.compare_spec (N_of_ascii a1) (N_of_ascii a3)) as [E13|L13|G13];
    try congruence; try lia.
  apply IH.
Qed.

#[global] Instance string_le_transitive : Transitive string_le.
Proof. intros s1 s2 s3. apply string_le_trans. Qed.

#[global] Instance string_le_total : Total string_le.
Proof. intros s1 s2. apply String.leb_total. Qed.

#[global] Instance string_le_antisym : AntiSymm (=) string_le.
Proof. intros s1 s2. apply String.leb_antisym. Qed.

Lemma string_le_refl s : string_le s s.
Proof. destruct (String.leb_total s s); assumption. Qed.

Lemma sortStrings_Permutation l : sortStrings l ≡ₚ l.
Proof. apply merge_sort_Permutation. Qed.

Lemma sortStrings_Sorted l : Sorted string_le (sortStrings l).
Proof. apply Sorted_merge_sort, _. Qed.

(** Sorting forgets the order in which the strings arrive. *)
Lemma sortStrings_order l1 l2 : l1 ≡ₚ l2 -> sortStrings l1 = sortStrings l2.
Proof.
  intros Hperm. apply (Sorted_unique string_le); try apply sortStrings_Sorted.
  rewrite !sortStrings_Permutation. exact Hperm.
Qed.

(** ** Label sets *)

Lemma entryOf_Split key value :
  occurs "=" key = false -> occurs "=" value = false ->
  labels.entryOf (Split (key +:+ "=" +:+ value) "=") = Some (key, value).
Proof.
  intros Hkey Hvalue. change ("=" +:+ value) with (String "=" value).
  rewrite (Split_append _ _ _ Hkey), (Split_clean _ _ Hvalue). reflexivity.
Qed.

Lemma plain_spec s :
  labels.plain s = true ->
  s <> "" /\ occurs "," s = false /\ occurs "=" s = false.
Proof.
  unfold labels.plain. rewrite !andb_true_iff, !negb_true_iff.
  intros [[Hne Hcomma] Heq]. repeat split; try assumption.
  apply String.eqb_neq, Hne.
Qed.

Lemma omap_fmap_compose {A B C} (f : A -> B) (g : B -> option C) (l : list A) :
  omap g (f <$> l) = omap (fun x => g (f x)) l.
Proof.
  induction l as [|x l IH]; [reflexivity|]. csimpl. rewrite IH. reflexivity.
Qed.

Lemma readEntry_entryText entries :
  Forall labels.plainEntry entries ->
  omap labels.readEntry (labels.entryText <$> entries) = entries.
Proof.
  induction 1 as [|[key value] entries [Hkey Hvalue] _ IH]; [reflexivity|].
  apply plain_spec in Hkey as (_ & _ & Hkey).
  apply plain_spec in Hvalue as (_ & _ & Hvalue).
  csimpl. rewrite IH. unfold labels.readEntry.
  simpl in *. rewrite (entryOf_Split _ _ Hkey Hvalue). reflexivity.
Qed.

Lemma entryText_no_comma entry :
  labels.plainEntry entry -> occurs "," (labels.entryText entry) = false.
Proof.
  destruct entry as [key value]. intros [Hkey Hvalue].
  apply plain_spec in Hkey as (_ & Hkey & _).
  apply plain_spec in Hvalue as (_ & Hvalue & _).
  simpl in *. rewrite !occurs_append, Hkey, Hvalue. reflexivity.
Qed.

(** Splitting the joined pieces back recovers the entries, up to their
    order. *)
Lemma splitBack_entries pieces entries :
  pieces ≡ₚ labels.entryText <$> entries ->
  Forall labels.plainEntry entries ->
  omap labels.entryOf (labels.splitBack (Join pieces ",")) ≡ₚ entries.
Proof.
  intros Hperm Hplain. unfold labels.splitBack.
  destruct pieces as [|piece pieces].
  - symmetry in Hperm. apply Permutation_nil_r in Hperm.
    apply fmap_nil_inv in Hperm as ->. reflexivity.
  - rewrite Split_Join; [|discriminate|].
    + rewrite omap_fmap_compose. fold labels.readEntry.
      change (fun x => labels.readEntry x) with labels.readEntry.
      rewrite Hperm. rewrite (readEntry_entryText _ Hplain). reflexivity.
    + rewrite Hperm. apply Forall_fmap.
      eapply Forall_impl; [exact Hplain|]. intros kv. apply entryText_no_comma.
Qed.

(** For a set that is not empty, every piece of the text is an entry: the
    split yields the pairs of the set and nothing else. *)
Lemma splitBack_exact (ls : gmap string string)
    (visited : list (string * string)) :
  labels.plainSet ls ->
  visited ≡ₚ map_to_list ls ->
  ls <> ∅ ->
  labels.splitBack (labels.StringOf visited)
  ≡ₚ (fun entry => [fst entry; snd entry]) <$> map_to_list ls.
Proof.
  intros Hplain Hvisited Hne.
  apply map_Forall_to_list in Hplain.
  assert (Hentries : Forall labels.plainEntry (map_to_list ls)).
  { eapply Forall_impl; [exact Hplain|]. intros [key value] Hkv. exact Hkv. }
  unfold labels.splitBack, labels.StringOf.
  assert (Hsort : sortStrings (labels.entryText <$> visited)
                  ≡ₚ labels.entryText <$> map_to_list ls).
  { rewrite sortStrings_Permutation, Hvisited. reflexivity. }
  destruct (sortStrings (labels.entryText <$> visited)) as [|piece pieces] eqn:Hpieces.
  - symmetry in Hsort. apply Permutation_nil_r, fmap_nil_inv in Hsort.
    apply map_to_list_empty_iff in Hsort. contradiction.
  - rewrite Split_Join; [|discriminate|].
    + rewrite Hsort, <- list_fmap_compose.
      match goal with |- ?l ≡ₚ ?r => enough (l = r) as -> by reflexivity end.
      apply Forall_fmap_ext_1.
      eapply Forall_impl; [exact Hentries|].
      intros [key value] [Hkey Hvalue].
      apply plain_spec in Hkey as (_ & _ & Hkey).
      apply plain_spec in Hvalue as (_ & _ & Hvalue). simpl in *.
      change ("=" +:+ value) with (String "=" value).
      rewrite (Split_append _ _ _ Hkey), (Split_clean _ _ Hvalue). reflexivity.
    + rewrite Hsort. apply Forall_fmap.
      eapply Forall_impl; [exact Hentries|]. intros kv. apply entryText_no_comma.
Qed.

(** C8: for a label set whose keys and values are non-empty and free of
    ',' and '=', whatever the order in which the map is visited, splitting
    the text of Set.String back on commas and '=' rebuilds the set exactly;
    and that text does not depend on the order of the visit. *)
Theorem String_round_trip (ls : gmap string string)
    (visited : list (string * string)) :
  labels.plainSet ls ->
  visited ≡ₚ map_to_list ls ->
  labels.fromString (labels.StringOf visited) = ls
  /\ labels.StringOf visited = labels.String ls.
Proof.
  intros Hplain Hvisited. split.
  - unfold labels.fromString, labels.StringOf.
    rewrite <- (list_to_map_to_list ls) at 1. symmetry.
    apply list_to_map_proper; [apply NoDup_fst_map_to_list|].
    rewrite <- Hvisited. symmetry. apply splitBack_entries.
    + apply sortStrings_Permutation.
    + rewrite Hvisited. apply map_Forall_to_list in Hplain.
      eapply Forall_impl; [exact Hplain|]. intros [key value] Hkv. exact Hkv.
  - unfold labels.String, labels.StringOf. f_equal.
    apply sortStrings_order. rewrite Hvisited. reflexivity.
Qed.

(** ** The Vagrant cloud provider *)

Section VagrantProperties.

Local Open Scope nat_scope.

Lemma midpoint_bounds i j : i < j -> i <= i + (j - i) / 2 < j.
Proof.
  intros Hij. pose proof (Nat.div_mod_eq (j - i) 2) as Hdiv.
  pose proof (Nat.mod_upper_bound (j - i) 2). lia.
Qed.

(** The invariant of sort.Search: f(i-1) is false and f(j) is true, with
    f(-1) read as false and f(n) as true. *)
Lemma searchLoop_spec n f fuel i j :
  i <= j <= n -> j - i <= fuel ->
  (0 < i -> f (i - 1) = false) ->
  (j < n -> f j = true) ->
  let r := vagrant_cloud.searchLoop fuel f i j in
  i <= r <= j /\ (0 < r -> f (r - 1) = false) /\ (r < n -> f r = true).
Proof.
  revert i j. induction fuel as [|fuel IH]; intros i j Hij Hfuel Hlow Hhigh;
    cbn [vagrant_cloud.searchLoop]; cbv zeta.
  - assert (i = j) as -> by lia. auto with lia.
  - destruct (Nat.ltb_spec i j) as [Hlt|Hge].
    + pose proof (midpoint_bounds i j Hlt) as Hh.
      remember (i + (j - i) / 2) as h eqn:Eh. clear Eh.
      destruct (f h) eqn:Hfh; cbn [negb].
      * specialize (IH i h ltac:(lia) ltac:(lia) Hlow (fun _ => Hfh)).
        cbv zeta in IH. intuition lia.
      * assert (Hlow' : 0 < h + 1 -> f (h + 1 - 1) = false).
        { intros _. replace (h + 1 - 1) with h by lia. exact Hfh. }
        specialize (IH (h + 1) j ltac:(lia) ltac:(lia) Hlow' Hhigh).
        cbv zeta in IH. intuition lia.
    + assert (i = j) as -> by lia. auto with lia.
Qed.

Lemma Search_spec n f :
  vagrant_cloud.Search n f <= n
  /\ (0 < vagrant_cloud.Search n f -> f (vagrant_cloud.Search n f - 1) = false)
  /\ (vagrant_cloud.Search n f < n -> f (vagrant_cloud.Search n f) = true).
Proof.
  unfold vagrant_cloud.Search.
  pose proof (searchLoop_spec n f n 0 n ltac:(lia) ltac:(lia)
                ltac:(lia) ltac:(lia)) as Hspec.
  cbv zeta in Hspec. intuition lia.
Qed.


(** In a sorted slice, the last element bounds every other. *)
Lemma sorted_last_bound (a : list string) (r : string) :
  Sorted string_le a -> r ∈ a ->
  string_le r (default "" (a !! (length a - 1))).
Proof.
  intros Hsorted Hr. apply (Sorted_StronglySorted string_le) in Hsorted.
  destruct a as [|x a] using rev_ind; [inversion Hr|]. clear IHa.
  rewrite length_app. simpl.
  replace (length a + 1 - 1) with (length a + 0) by lia.
  rewrite lookup_app_r, Nat.add_comm by lia. simpl.
  replace (length a - length a) with 0 by lia. simpl.
  apply elem_of_app in Hr as [Hr|Hr].
  - eapply StronglySorted_app_1_elem_of; [exact Hsorted|exact Hr|]. 
    apply list_elem_of_singleton. reflexivity.
  - apply list_elem_of_singleton in Hr as ->. apply string_le_refl.
Qed.

(** What the test [pos < len(value.Roles)] decides on sorted roles: some
    role is at least [x]. *)
Lemma SearchStrings_in_range (a : list string) (x : string) :
  Sorted string_le a ->
  vagrant_cloud.SearchStrings a x < length a <-> exists r, r ∈ a /\ string_le x r.
Proof.
  intros Hsorted. unfold vagrant_cloud.SearchStrings.
  set (f := fun i => String.leb x (default "" (a !! i))).
  destruct (Search_spec (length a) f) as (Hle & Hlow & Hhigh).
  split.
  - intros Hlt. destruct (lookup_lt_is_Some_2 a _ Hlt) as [r Hr].
    exists r. split; [eapply list_elem_of_lookup_2, Hr|].
    specialize (Hhigh Hlt).
    change (String.leb x (default "" (a !! vagrant_cloud.Search (length a) f)) = true) in Hhigh.
    rewrite Hr in Hhigh. exact Hhigh.
  - intros (r & Hr & Hxr).
    destruct (Nat.lt_ge_cases (vagrant_cloud.Search (length a) f) (length a)) as [|Hge]; [assumption|].
    exfalso. assert (Hn : vagrant_cloud.Search (length a) f = length a) by lia.
    assert (Hpos : 0 < length a).
    { destruct a; [inversion Hr|simpl; lia]. }
    rewrite Hn in Hlow. specialize (Hlow Hpos).
    change (String.leb x (default "" (a !! (length a - 1))) = false) in Hlow.
    pose proof (string_le_trans _ _ _ Hxr (sorted_last_bound a r Hsorted Hr)) as Hlast.
    unfold string_le in Hlast. congruence.
Qed.

Lemma roleInRange_spec role value :
  Sorted string_le (vagrant_cloud.Roles value) ->
  vagrant_cloud.roleInRange role value = true <-> exists r, r ∈ vagrant_cloud.Roles value /\ string_le role r.
Proof.
  intros Hsorted. unfold vagrant_cloud.roleInRange. cbv zeta.
  rewrite Nat.ltb_lt. apply SearchStrings_in_range, Hsorted.
Qed.

Lemma saltMinionsByRole_fold role minions filteredMinions seen :
  foldl (fun '(filteredMinions, seen) value =>
           let value := vagrant_cloud.sortRoles value in
           if vagrant_cloud.roleInRange role value
           then (filteredMinions ++ [value], seen ++ [value])
           else (filteredMinions, seen ++ [value]))
        (filteredMinions, seen) minions =
  (filteredMinions ++ List.filter (vagrant_cloud.roleInRange role) (vagrant_cloud.sortRoles <$> minions),
   seen ++ (vagrant_cloud.sortRoles <$> minions)).
Proof.
  revert filteredMinions seen.
  induction minions as [|value minions IH]; intros filteredMinions seen; simpl.
  - rewrite !app_nil_r. reflexivity.
  - destruct (vagrant_cloud.roleInRange role (vagrant_cloud.sortRoles value)); rewrite IH, <- !app_assoc;
      reflexivity.
Qed.

Lemma saltMinionsByRole_unfold minions role :
  vagrant_cloud.saltMinionsByRole minions role =
  (List.filter (vagrant_cloud.roleInRange role) (vagrant_cloud.sortRoles <$> minions),
   vagrant_cloud.sortRoles <$> minions).
Proof. unfold vagrant_cloud.saltMinionsByRole. apply saltMinionsByRole_fold. Qed.

(** The test on a minion whose roles have just been sorted. *)
Lemma roleInRange_sortRoles role m :
  vagrant_cloud.roleInRange role (vagrant_cloud.sortRoles m) = true
  <-> exists r, r ∈ vagrant_cloud.Roles m /\ string_le role r.
Proof.
  rewrite roleInRange_spec by apply sortStrings_Sorted. simpl.
  split; intros (r & Hr & Hle); exists r; split; try assumption.
  - rewrite sortStrings_Permutation in Hr. exact Hr.
  - rewrite sortStrings_Permutation. exact Hr.
Qed.

Lemma kept_iff minions role value :
  value ∈ fst (vagrant_cloud.saltMinionsByRole minions role) <->
  exists m, m ∈ minions /\ value = vagrant_cloud.sortRoles m
            /\ exists r, r ∈ vagrant_cloud.Roles m /\ string_le role r.
Proof.
  rewrite saltMinionsByRole_unfold. simpl.
  rewrite list_elem_of_In, filter_In, <- list_elem_of_In, list_elem_of_fmap.
  split.
  - intros [(m & -> & Hm) Htest]. exists m. repeat split; try assumption.
    apply roleInRange_sortRoles, Htest.
  - intros (m & Hm & -> & Hr). split; [exists m; auto|].
    apply roleInRange_sortRoles, Hr.
Qed.

(** X13: what saltMinionsByRole computes: the roles of every minion end up
    sorted, and the minions kept are those with a role that is at least
    [role] in the order of strings, whether or not it is [role] itself. *)
Theorem saltMinionsByRole_spec minions role :
  vagrant_cloud.saltMinionsByRole minions role =
  (List.filter (vagrant_cloud.roleInRange role) (vagrant_cloud.sortRoles <$> minions), vagrant_cloud.sortRoles <$> minions)
  /\ forall value,
       value ∈ fst (vagrant_cloud.saltMinionsByRole minions role) <->
       exists m, m ∈ minions /\ value = vagrant_cloud.sortRoles m
                 /\ exists r, r ∈ vagrant_cloud.Roles m /\ string_le role r.
Proof.
  assert (Heq : vagrant_cloud.saltMinionsByRole minions role =
                (List.filter (vagrant_cloud.roleInRange role) (vagrant_cloud.sortRoles <$> minions),
                 vagrant_cloud.sortRoles <$> minions)).
  { unfold vagrant_cloud.saltMinionsByRole. apply saltMinionsByRole_fold. }
  split; [exact Heq|]. intros value. rewrite Heq. simpl.
  rewrite list_elem_of_In, filter_In, <- list_elem_of_In, list_elem_of_fmap.
  split.
  - intros [(m & -> & Hm) Htest]. exists m. repeat split; try assumption.
    apply roleInRange_spec in Htest as (r & Hr & Hle);
      [|apply sortStrings_Sorted].
    exists r. split; [|exact Hle].
    simpl in Hr. rewrite sortStrings_Permutation in Hr. exact Hr.
  - intros (m & Hm & -> & r & Hr & Hle). split; [exists m; auto|].
    apply roleInRange_spec; [apply sortStrings_Sorted|].
    exists r. split; [|exact Hle].
    simpl. rewrite sortStrings_Permutation. exact Hr.
Qed.

(** X14: every minion that carries the role is kept. *)
Corollary saltMinionsByRole_keeps_members minions role m :
  m ∈ minions -> role ∈ vagrant_cloud.Roles m ->
  vagrant_cloud.sortRoles m ∈ fst (vagrant_cloud.saltMinionsByRole minions role).
Proof.
  intros Hm Hrole. apply kept_iff.
  exists m. repeat split; try assumption.
  exists role. split; [exact Hrole|apply string_le_refl].
Qed.

(** C10: saltMinionsByRole keeps a minion whose only role, salt-master, is
    not the role asked for: the test looks at the position the binary search
    returns, not at the role found there.  List then reports its IP. *)
Theorem saltMinionsByRole_keeps_non_member :
  fst (vagrant_cloud.saltMinionsByRole [samples.saltMaster] "kubernetes-pool")
  = [samples.saltMaster]
  /\ ("kubernetes-pool" ∉ vagrant_cloud.Roles samples.saltMaster)
  /\ vagrant_cloud.List samples.salt vagrant_cloud.newVagrantCloud "" = vagrant_cloud.Value ["10.245.1.2"].
Proof.
  split; [reflexivity|]. split; [|reflexivity].
  intros Hin. apply list_elem_of_singleton in Hin. discriminate Hin.
Qed.

End VagrantProperties.

(* ===================================================================== *)
(** * Further properties *)
(* ===================================================================== *)

(** ** The client: calls made and results returned on every path *)

Lemma sends_app t l : sends (t ++ l) = (sends t + sends l)%nat.
Proof. unfold sends. rewrite List.filter_app, length_app. reflexivity. Qed.

(** Walk through every path of doRequest. *)
Ltac doRequest_paths :=
  unfold client.doRequest, client.deferring; run_M;
  repeat match goal with
  | |- context [client.httpClient ?c ?r] =>
      let Hdo := fresh "Hdo" in destruct (client.httpClient c r) as [?response|?err] eqn:Hdo
  | |- context [http.readErr ?b] =>
      let Hread := fresh "Hread" in destruct (http.readErr b) as [?e|] eqn:Hread
  | |- context [DecodeInto ?b ?s] =>
      let Hdec := fresh "Hdec" in destruct (DecodeInto b s) as [?st [?derr|]] eqn:Hdec
  | |- context [if ?b then _ else _] =>
      let Htest := fresh "Htest" in destruct b eqn:Htest
  end; simpl.

Section ClientCoverage.

Variable StatusSuccess : string.
Variable GoString : http.Request -> string.
Variable NewRequest : string -> string -> option bytes -> http.Request + error.
Context `{decodeStatus : Decodable api.Status}.

Local Abbreviation doRequest := (client.doRequest StatusSuccess GoString).
Local Abbreviation rawRequest := (client.rawRequest StatusSuccess GoString NewRequest).

(** X1: the calls doRequest makes, on every path: one send; when a
    response arrives, one read of its body, then, if the read succeeded, one
    decode of the body as a status, whatever the status code, and last the
    deferred Close.  Nothing else is called and nothing is sent twice. *)
Theorem doRequest_calls c request t :
  snd (doRequest c request t) =
  t ++ EvDo (client.withAuth c request) ::
    match client.httpClient c (client.withAuth c request) with
    | inr _ => []
    | inl response =>
      EvReadAll ::
      match http.readErr (http.Body response) with
      | Some _ => []
      | None => [EvDecodeInto (http.content (http.Body response))]
      end ++ [EvClose]
    end.
Proof.
  doRequest_paths; rewrite <- ?app_assoc; reflexivity.
Qed.

Lemma doRequest_sends c request t :
  sends (snd (doRequest c request t)) = (sends t + 1)%nat.
Proof.
  doRequest_paths; rewrite !sends_app; unfold sends; simpl; lia.
Qed.

Lemma doRequest_not_nil_nil c request t :
  fst (doRequest c request t) <> (None, None).
Proof.
  doRequest_paths; discriminate.
Qed.

(** X2: doRequest never returns a nil body together with a nil error; it
    returns a body together with an error only when the read of the response
    body failed, and then they are the bytes read so far and the error of
    the read. *)
Theorem doRequest_body_or_error c request t :
  match fst (doRequest c request t) with
  | (None, None) => False
  | (Some body, Some e) =>
      exists response,
        client.httpClient c (client.withAuth c request) = inl response
        /\ http.readErr (http.Body response) = Some e
        /\ body = http.content (http.Body response)
  | _ => True
  end.
Proof.
  doRequest_paths; eauto.
Qed.

(** X3: doRequest returns a nil error only for a response that arrived,
    whose body was read in full, whose status code lies in [200, 206], and
    whose body holds no status or a status of kind Success; the body
    returned is then the body read. *)
Theorem doRequest_success_sound c request t :
  snd (fst (doRequest c request t)) = None ->
  exists response body,
    client.receives c request response body
    /\ client.inRange (http.StatusCode response)
    /\ fst (doRequest c request t) = (Some body, None)
    /\ (client.noStatus body
        \/ exists st, DecodeInto body api.zeroStatus = (st, None)
                      /\ api.status st = StatusSuccess).
Proof.
  intros Hnil.
  destruct (client.httpClient c (client.withAuth c request))
    as [response|err] eqn:Hdo.
  2: { exfalso. revert Hnil. unfold client.doRequest. run_M. rewrite Hdo.
       discriminate. }
  destruct (http.readErr (http.Body response)) as [e|] eqn:Hread.
  { exfalso. rewrite (doRequest_read_error _ _ _ _ _ _ _ Hdo Hread) in Hnil.
    discriminate Hnil. }
  assert (Hrecv : client.receives c request response
                    (http.content (http.Body response))).
  { split; [exact Hdo|]. destruct (http.Body response); simpl in *.
    rewrite Hread. reflexivity. }
  exists response, (http.content (http.Body response)).
  destruct (DecodeInto (http.content (http.Body response)) api.zeroStatus)
    as [st derr] eqn:Hdec.
  rewrite (doRequest_verdict _ _ _ _ _ _ _ _ _ Hrecv Hdec) in Hnil |- *.
  unfold client.inRange, http.StatusOK, http.StatusPartialContent.
  cbv zeta in *. rewrite Z.gtb_ltb in *.
  destruct (Z.eqb_spec (http.StatusCode response) 409).
  { destruct derr; [|destruct (negb _)]; discriminate Hnil. }
  destruct (Z.ltb_spec (http.StatusCode response) 200); [discriminate Hnil|].
  destruct (Z.ltb_spec 206 (http.StatusCode response)); [discriminate Hnil|].
  simpl in *. split; [exact Hrecv|]. split; [lia|].
  destruct derr as [derr|].
  - split; [reflexivity|]. left. intros st' [Hst' _]. congruence.
  - destruct (String.eqb_spec (api.status st) "") as [Hempty|Hkind]; simpl in *.
    + split; [reflexivity|]. left. intros st' [Hst' Hne]. congruence.
    + destruct (String.eqb_spec (api.status st) StatusSuccess); simpl in *;
        [|discriminate Hnil].
      split; [reflexivity|]. right. exists st. split; [reflexivity|assumption].
Qed.

Section TargetCoverage.

Context {T : Type} `{decodeTarget : Decodable T}.

(** X4: when http.NewRequest refuses the method or the URL, rawRequest
    returns a nil body and that error, leaves the target as it was, and
    makes no call at all. *)
Theorem rawRequest_bad_request c method path requestBody (target : option T) err t :
  NewRequest method (client.makeURL c path) requestBody = inr err ->
  rawRequest c method path requestBody target t = ((None, Some err, target), t).
Proof.
  intros Hnew. unfold client.rawRequest. rewrite Hnew. reflexivity.
Qed.

(** X6: rawRequest hands exactly one request to the transport when the
    request can be built, and none otherwise: there is no retry on any
    path. *)
Theorem rawRequest_sends c method path requestBody (target : option T) t :
  sends (snd (rawRequest c method path requestBody target t)) =
  (sends t + match NewRequest method (client.makeURL c path) requestBody with
             | inl _ => 1
             | inr _ => 0
             end)%nat.
Proof.
  unfold client.rawRequest.
  destruct (NewRequest method (client.makeURL c path) requestBody)
    as [request|err]; [|simpl; lia].
  pose proof (doRequest_sends c request t) as Hsends. run_M.
  destruct (client.doRequest StatusSuccess GoString c request t)
    as [[body [e|]] t']; simpl in *; [exact Hsends|].
  destruct target as [target|]; simpl.
  - destruct (DecodeInto (client.bytesOf body) target) as [target' [e|]];
      simpl; rewrite !sends_app, Hsends; unfold sends; simpl; lia.
  - exact Hsends.
Qed.

(** X5: the calls rawRequest makes beyond those of doRequest: the body is
    decoded into the target once, only when doRequest returned no error and
    a target was supplied, and a line is logged only when that decode fails.
    When the request cannot be built, nothing is called. *)
Theorem rawRequest_calls c method path requestBody (target : option T) t :
  snd (rawRequest c method path requestBody target t) =
  match NewRequest method (client.makeURL c path) requestBody with
  | inr _ => t
  | inl request =>
    let '((body, err), t') := doRequest c request t in
    t' ++
    match err, target with
    | None, Some into =>
      EvDecodeInto (client.bytesOf body) ::
      match snd (DecodeInto (client.bytesOf body) into) with
      | Some _ =>
        [EvInfof ("Failed to parse: " +:+ client.bytesOf body +:+ newline)]
      | None => []
      end
    | _, _ => []
    end
  end.
Proof.
  unfold client.rawRequest.
  destruct (NewRequest method (client.makeURL c path) requestBody)
    as [request|err]; [|reflexivity].
  run_M.
  destruct (client.doRequest StatusSuccess GoString c request t)
    as [[body [e|]] t']; simpl; [rewrite app_nil_r; reflexivity|].
  destruct target as [target|]; simpl; [|rewrite app_nil_r; reflexivity].
  destruct (DecodeInto (client.bytesOf body) target) as [target' [e|]]; simpl;
    rewrite <- ?app_assoc; reflexivity.
Qed.

(** X8: rawRequest never returns a nil body together with a nil error. *)
Theorem rawRequest_body_or_error c method path requestBody (target : option T) t :
  fst (fst (fst (rawRequest c method path requestBody target t))) <> None
  \/ snd (fst (fst (rawRequest c method path requestBody target t))) <> None.
Proof.
  unfold client.rawRequest.
  destruct (NewRequest method (client.makeURL c path) requestBody)
    as [request|err]; [|right; discriminate].
  pose proof (doRequest_not_nil_nil c request t) as Hsome. run_M.
  destruct (client.doRequest StatusSuccess GoString c request t)
    as [[body [e|]] t']; simpl in *; [right; discriminate|].
  left. destruct body as [body|]; [|contradiction].
  destruct target as [target|]; simpl;
    [destruct (DecodeInto body target) as [target' [e|]]|]; discriminate.
Qed.

(** X7: the target comes back changed only if the request was built and
    doRequest returned no error; it then holds what the decode of the
    returned body left in it. *)
Theorem rawRequest_target_changes_only_on_success c method path requestBody
    (target : T) t :
  snd (fst (rawRequest c method path requestBody (Some target) t)) <> Some target ->
  exists request body t',
    NewRequest method (client.makeURL c path) requestBody = inl request
    /\ doRequest c request t = ((body, None), t')
    /\ snd (fst (rawRequest c method path requestBody (Some target) t))
       = Some (fst (DecodeInto (client.bytesOf body) target)).
Proof.
  unfold client.rawRequest.
  destruct (NewRequest method (client.makeURL c path) requestBody)
    as [request|err]; [|simpl; congruence].
  run_M.
  destruct (client.doRequest StatusSuccess GoString c request t)
    as [[body [e|]] t'] eqn:Hdo; simpl; [congruence|].
  intros _. exists request, body, t'. split; [reflexivity|]. split; [exact Hdo|].
  destruct (DecodeInto (client.bytesOf body) target) as [target' [e|]]; reflexivity.
Qed.

End TargetCoverage.

End ClientCoverage.

(** ** Label sets: the text of Set.String *)

Lemma plainSet_entries (ls : gmap string string) :
  labels.plainSet ls -> Forall labels.plainEntry (map_to_list ls).
Proof.
  intros Hplain. apply map_Forall_to_list in Hplain.
  eapply Forall_impl; [exact Hplain|]. intros [key value] Hkv. exact Hkv.
Qed.

Lemma fromString_String (ls : gmap string string) :
  labels.plainSet ls -> labels.fromString (labels.String ls) = ls.
Proof.
  intros Hplain. unfold labels.fromString, labels.String, labels.StringOf.
  transitivity (list_to_map (map_to_list ls) : gmap string string);
    [|apply list_to_map_to_list].
  symmetry. apply list_to_map_proper; [apply NoDup_fst_map_to_list|].
  symmetry. apply splitBack_entries.
  - apply sortStrings_Permutation.
  - apply plainSet_entries, Hplain.
Qed.

(** X9: on label sets whose keys and values are non-empty and free of ','
    and '=', Set.String is injective: two such sets with the same text are
    the same set. *)
Theorem String_injective (ls1 ls2 : gmap string string) :
  labels.plainSet ls1 -> labels.plainSet ls2 ->
  labels.String ls1 = labels.String ls2 -> ls1 = ls2.
Proof.
  intros Hplain1 Hplain2 Heq.
  rewrite <- (fromString_String ls1 Hplain1), <- (fromString_String ls2 Hplain2), Heq.
  reflexivity.
Qed.

Lemma Split_String (ls : gmap string string) :
  labels.plainSet ls -> ls <> ∅ ->
  Split (labels.String ls) "," = sortStrings (labels.entryText <$> map_to_list ls).
Proof.
  intros Hplain Hne. unfold labels.String, labels.StringOf.
  pose proof (sortStrings_Permutation (labels.entryText <$> map_to_list ls)) as Hsort.
  apply Split_Join.
  - intros Hnil. rewrite Hnil in Hsort. symmetry in Hsort.
    apply Permutation_nil_r, fmap_nil_inv, map_to_list_empty_iff in Hsort.
    contradiction.
  - rewrite Hsort. apply Forall_fmap.
    eapply Forall_impl; [apply plainSet_entries, Hplain|].
    intros kv. apply entryText_no_comma.
Qed.

(** X10: for a label set that is not empty and whose keys and values are
    non-empty and free of ',' and '=', the comma-separated pieces of
    Set.String are the key=value texts of its entries, in ascending order of
    strings, one piece per entry. *)
Theorem String_pieces (ls : gmap string string) :
  labels.plainSet ls -> ls <> ∅ ->
  Split (labels.String ls) "," ≡ₚ labels.entryText <$> map_to_list ls
  /\ Sorted string_le (Split (labels.String ls) ",")
  /\ length (Split (labels.String ls) ",") = size ls.
Proof.
  intros Hplain Hne. rewrite (Split_String ls Hplain Hne).
  split; [apply sortStrings_Permutation|]. split; [apply sortStrings_Sorted|].
  rewrite sortStrings_Permutation, length_fmap. apply length_map_to_list.
Qed.

Lemma entryText_not_empty entry : labels.entryText entry <> "".
Proof.
  destruct entry as [key value]. simpl. destruct key; discriminate.
Qed.

Lemma Join_empty_inv parts sep : Join parts sep = "" -> parts = [] \/ hd "" parts = "".
Proof.
  unfold Join. destruct parts as [|part [|next parts]]; simpl; auto.
  destruct part; [auto|discriminate].
Qed.

(** X11: Set.String returns the empty string exactly for the empty set. *)
Theorem String_empty_iff (ls : gmap string string) :
  labels.String ls = "" <-> ls = ∅.
Proof.
  unfold labels.String, labels.StringOf. split.
  - intros Hempty.
    pose proof (sortStrings_Permutation (labels.entryText <$> map_to_list ls)) as Hsort.
    apply Join_empty_inv in Hempty as [Hnil|Hhd].
    + rewrite Hnil in Hsort. symmetry in Hsort.
      apply Permutation_nil_r, fmap_nil_inv, map_to_list_empty_iff in Hsort.
      exact Hsort.
    + destruct (sortStrings (labels.entryText <$> map_to_list ls))
        as [|piece pieces].
      * symmetry in Hsort.
        apply Permutation_nil_r, fmap_nil_inv, map_to_list_empty_iff in Hsort.
        exact Hsort.
      * simpl in Hhd. subst piece. exfalso.
        assert (Hin : "" ∈ labels.entryText <$> map_to_list ls).
        { rewrite <- Hsort. apply list_elem_of_here. }
        apply list_elem_of_fmap in Hin as (entry & Hentry & _).
        symmetry in Hentry. exact (entryText_not_empty entry Hentry).
  - intros ->. rewrite map_to_list_empty. reflexivity.
Qed.

(** X12: for a label set whose keys and values are non-empty and free of
    ',' and '=', every label it holds shows up in Set.String as the piece
    label=value, with the value that Set.Get returns for it. *)
Theorem String_shows_Get (ls : gmap string string) (label : string) :
  labels.plainSet ls ->
  is_Some (ls !! label) ->
  (label +:+ "=" +:+ labels.Get ls label) ∈ Split (labels.String ls) ",".
Proof.
  intros Hplain [value Hvalue].
  rewrite Split_String; [|exact Hplain|].
  - rewrite sortStrings_Permutation. unfold labels.Get. rewrite Hvalue. simpl.
    apply list_elem_of_fmap. exists (label, value). split; [reflexivity|].
    apply elem_of_map_to_list, Hvalue.
  - intros ->. rewrite lookup_empty in Hvalue. discriminate Hvalue.
Qed.

(** ** The Vagrant cloud provider: the filter, the login and the listing *)

Section VagrantCoverage.

Local Open Scope nat_scope.

Lemma sortStrings_idempotent l : sortStrings (sortStrings l) = sortStrings l.
Proof. apply sortStrings_order, sortStrings_Permutation. Qed.

Lemma sortRoles_idempotent m :
  vagrant_cloud.sortRoles (vagrant_cloud.sortRoles m) = vagrant_cloud.sortRoles m.
Proof. unfold vagrant_cloud.sortRoles. simpl. rewrite sortStrings_idempotent. reflexivity. Qed.

Lemma string_le_empty s : string_le "" s.
Proof. destruct s; reflexivity. Qed.

Lemma filter_sublist {A} (f : A -> bool) (l : list A) : sublist (List.filter f l) l.
Proof.
  induction l as [|x l IH]; simpl; [constructor|].
  destruct (f x); [apply sublist_skip|apply sublist_cons]; exact IH.
Qed.

(** X15: saltMinionsByRole leaves the caller's minions in their order, with
    IP and Host untouched and the roles of each sorted in place (the same
    roles, in ascending order); the minions kept are a subsequence of
    them. *)
Theorem saltMinionsByRole_sorts_in_place minions role :
  Forall2 (fun m m' =>
             vagrant_cloud.IP m' = vagrant_cloud.IP m
             /\ vagrant_cloud.Host m' = vagrant_cloud.Host m
             /\ Sorted string_le (vagrant_cloud.Roles m')
             /\ vagrant_cloud.Roles m' ≡ₚ vagrant_cloud.Roles m)
          minions (snd (vagrant_cloud.saltMinionsByRole minions role))
  /\ sublist (fst (vagrant_cloud.saltMinionsByRole minions role))
             (snd (vagrant_cloud.saltMinionsByRole minions role)).
Proof.
  rewrite saltMinionsByRole_unfold. simpl. split; [|apply filter_sublist].
  apply Forall2_fmap_r, Forall_Forall2_diag, Forall_forall. intros m _.
  simpl. repeat split; [apply sortStrings_Sorted|apply sortStrings_Permutation].
Qed.

Lemma filter_filter_same {A} (f : A -> bool) (l : list A) :
  List.filter f (List.filter f l) = List.filter f l.
Proof.
  induction l as [|x l IH]; simpl; [reflexivity|].
  destruct (f x) eqn:Hfx; simpl; rewrite ?Hfx, IH; reflexivity.
Qed.

(** X16: filtering the minions kept once more, with the same role, keeps
    all of them and changes none. *)
Theorem saltMinionsByRole_idempotent minions role :
  let kept := fst (vagrant_cloud.saltMinionsByRole minions role) in
  vagrant_cloud.saltMinionsByRole kept role = (kept, kept).
Proof.
  cbv zeta. rewrite !saltMinionsByRole_unfold. simpl.
  assert (Hfix : vagrant_cloud.sortRoles <$>
                   List.filter (vagrant_cloud.roleInRange role)
                     (vagrant_cloud.sortRoles <$> minions)
                 = List.filter (vagrant_cloud.roleInRange role)
                     (vagrant_cloud.sortRoles <$> minions)).
  { induction minions as [|m minions IH]; csimpl; [reflexivity|].
    destruct (vagrant_cloud.roleInRange role (vagrant_cloud.sortRoles m)); csimpl;
      [rewrite sortRoles_idempotent|]; rewrite IH; reflexivity. }
  rewrite Hfix, filter_filter_same. reflexivity.
Qed.

(** X17: a minion kept for a role is kept for every role that is smaller
    in the order of strings. *)
Theorem saltMinionsByRole_antitone minions role1 role2 value :
  string_le role1 role2 ->
  value ∈ fst (vagrant_cloud.saltMinionsByRole minions role2) ->
  value ∈ fst (vagrant_cloud.saltMinionsByRole minions role1).
Proof.
  intros Hle. rewrite !kept_iff. intros (m & Hm & -> & r & Hr & Hrole).
  exists m. repeat split; try assumption. exists r. split; [exact Hr|].
  eapply string_le_trans; eassumption.
Qed.

(** X18: a minion without roles is never kept, whatever the role asked
    for; with the empty role, every minion that has a role is kept. *)
Theorem saltMinionsByRole_empty_cases minions :
  (forall role value,
     value ∈ fst (vagrant_cloud.saltMinionsByRole minions role) ->
     vagrant_cloud.Roles value <> [])
  /\ (forall m, m ∈ minions -> vagrant_cloud.Roles m <> [] ->
        vagrant_cloud.sortRoles m ∈ fst (vagrant_cloud.saltMinionsByRole minions "")).
Proof.
  split.
  - intros role value Hin. apply kept_iff in Hin as (m & _ & -> & r & Hr & _).
    simpl. intros Hnil.
    rewrite <- (sortStrings_Permutation (vagrant_cloud.Roles m)), Hnil in Hr.
    inversion Hr.
  - intros m Hm Hroles. apply kept_iff. exists m. repeat split; try assumption.
    destruct (vagrant_cloud.Roles m) as [|r roles]; [contradiction|].
    exists r. split; [apply list_elem_of_here|apply string_le_empty].
Qed.

(** In a sorted slice, an earlier element is at most a later one. *)
Lemma sorted_lookup_le (a : list string) i j r s :
  Sorted string_le a -> a !! i = Some r -> a !! j = Some s -> i <= j ->
  string_le r s.
Proof.
  intros Hsorted. apply (Sorted_StronglySorted string_le) in Hsorted.
  revert i j. induction Hsorted as [|x a Hsorted IH Hall]; intros i j Hi Hj Hij.
  - inversion Hi.
  - destruct i as [|i], j as [|j]; simpl in *; try lia.
    + injection Hi as <-. injection Hj as <-. apply string_le_refl.
    + injection Hi as <-. rewrite Forall_forall in Hall.
      apply Hall. eapply list_elem_of_lookup_2, Hj.
    + eapply IH; eauto with lia.
Qed.

(** X19: on sorted roles, the position that sort.SearchStrings hands to
    saltMinionsByRole is at most the length, and the elements before it are
    exactly those below the role asked for: the loop of the search, run for
    len(a) rounds, has then reached its answer. *)
Theorem SearchStrings_lower_bound (a : list string) (x : string) :
  Sorted string_le a ->
  vagrant_cloud.SearchStrings a x <= length a
  /\ forall k r, a !! k = Some r ->
       (k < vagrant_cloud.SearchStrings a x <-> ~ string_le x r).
Proof.
  intros Hsorted. unfold vagrant_cloud.SearchStrings.
  set (f := fun i => String.leb x (default "" (a !! i))).
  destruct (Search_spec (length a) f) as (Hle & Hlow & Hhigh).
  split; [exact Hle|]. intros k r Hk.
  pose proof (lookup_lt_Some _ _ _ Hk) as Hklt.
  split.
  - intros Hlt Hxr.
    destruct (lookup_lt_is_Some_2 a (vagrant_cloud.Search (length a) f - 1))
      as [s Hs]; [lia|].
    specialize (Hlow ltac:(lia)).
    change (String.leb x (default "" (a !! (vagrant_cloud.Search (length a) f - 1))) = false) in Hlow.
    rewrite Hs in Hlow. simpl in Hlow.
    assert (Hrs : string_le r s).
    { eapply sorted_lookup_le; eauto. lia. }
    pose proof (string_le_trans _ _ _ Hxr Hrs) as Hxs.
    unfold string_le in Hxs. congruence.
  - intros Hnot.
    destruct (Nat.lt_ge_cases k (vagrant_cloud.Search (length a) f)) as [|Hge];
      [assumption|].
    exfalso. apply Hnot.
    destruct (lookup_lt_is_Some_2 a (vagrant_cloud.Search (length a) f))
      as [s Hs]; [lia|].
    specialize (Hhigh ltac:(lia)).
    change (String.leb x (default "" (a !! vagrant_cloud.Search (length a) f)) = true) in Hhigh.
    rewrite Hs in Hhigh. simpl in Hhigh.
    eapply string_le_trans; [exact Hhigh|].
    eapply sorted_lookup_le; eauto.
Qed.

(** X20: saltLogin returns a token exactly when the login answer holds at
    least one, and it is the first; when the answer holds none, it fails
    with "No token found in response", and when the call fails, with the
    error of the call. *)
Theorem saltLogin_token_iff api v token :
  (vagrant_cloud.saltLogin api v = inl token
   <-> exists rest,
         vagrant_cloud.postLogin api (vagrant_cloud.saltURL v +:+ "/login")
           (vagrant_cloud.saltUser v) (vagrant_cloud.saltPass v)
           (vagrant_cloud.saltAuth v)
         = inl (vagrant_cloud.mkSaltLoginResponse (token :: rest)))
  /\ (forall e,
        vagrant_cloud.saltLogin api v = inr e
        <-> vagrant_cloud.postLogin api (vagrant_cloud.saltURL v +:+ "/login")
              (vagrant_cloud.saltUser v) (vagrant_cloud.saltPass v)
              (vagrant_cloud.saltAuth v) = inr e
            \/ (vagrant_cloud.postLogin api (vagrant_cloud.saltURL v +:+ "/login")
                  (vagrant_cloud.saltUser v) (vagrant_cloud.saltPass v)
                  (vagrant_cloud.saltAuth v)
                = inl (vagrant_cloud.mkSaltLoginResponse [])
                /\ e = Errorf "No token found in response")).
Proof.
  unfold vagrant_cloud.saltLogin.
  destruct (vagrant_cloud.postLogin _ _ _ _ _) as [[[|first rest]]|err]; simpl;
    split.
  - split; [discriminate|]. intros [rest' Heq]. discriminate Heq.
  - intros e. split.
    + intros [= <-]. right. split; reflexivity.
    + intros [Heq|[_ ->]]; [discriminate Heq|reflexivity].
  - split.
    + intros [= ->]. exists rest. reflexivity.
    + intros [rest' [= -> ->]]. reflexivity.
  - intros e. split; [discriminate|].
    intros [Heq|[Heq _]]; discriminate Heq.
  - split; [discriminate|]. intros [rest' Heq]. discriminate Heq.
  - intros e. split.
    + intros [= ->]. left. reflexivity.
    + intros [[= ->]|[Heq _]]; [reflexivity|discriminate Heq].
Qed.


Lemma saltMinions_value api v token first rest :
  vagrant_cloud.getMinions api (vagrant_cloud.saltURL v +:+ "/minions")
    (vagrant_cloud.Token token)
  = inl (vagrant_cloud.mkSaltMinionsResponse (first :: rest)) ->
  vagrant_cloud.saltMinions api v token = vagrant_cloud.Value (snd <$> first).
Proof. intros Hget. unfold vagrant_cloud.saltMinions. rewrite Hget. reflexivity. Qed.

(** X22: once the login and the query of the minions succeed, List returns
    the IP of every minion of the first returned map that carries the role
    kubernetes-pool. *)
Theorem List_complete api v filter token first rest name m :
  vagrant_cloud.saltLogin api v = inl token ->
  vagrant_cloud.getMinions api (vagrant_cloud.saltURL v +:+ "/minions")
    (vagrant_cloud.Token token)
  = inl (vagrant_cloud.mkSaltMinionsResponse (first :: rest)) ->
  (name, m) ∈ first ->
  "kubernetes-pool" ∈ vagrant_cloud.Roles m ->
  exists ips, vagrant_cloud.List api v filter = vagrant_cloud.Value ips
              /\ vagrant_cloud.IP m ∈ ips.
Proof.
  intros Hlogin Hget Hin Hrole. unfold vagrant_cloud.List.
  rewrite Hlogin, (saltMinions_value _ _ _ _ _ Hget).
  eexists. split; [reflexivity|].
  apply list_elem_of_fmap. exists (vagrant_cloud.sortRoles m). split; [reflexivity|].
  apply kept_iff. exists m. split.
  - apply list_elem_of_fmap. exists (name, m). split; [reflexivity|exact Hin].
  - split; [reflexivity|]. exists "kubernetes-pool".
    split; [exact Hrole|apply string_le_refl].
Qed.

(** X23: when List returns instances, the login and the query succeeded,
    every instance is the IP of a minion of the first returned map that has
    a role at or above kubernetes-pool in the order of strings, and there
    are no more instances than minions. *)
Theorem List_sound api v filter ips :
  vagrant_cloud.List api v filter = vagrant_cloud.Value ips ->
  exists token first rest,
    vagrant_cloud.saltLogin api v = inl token
    /\ vagrant_cloud.getMinions api (vagrant_cloud.saltURL v +:+ "/minions")
         (vagrant_cloud.Token token)
       = inl (vagrant_cloud.mkSaltMinionsResponse (first :: rest))
    /\ length ips <= length first
    /\ forall ip, ip ∈ ips ->
         exists name m, (name, m) ∈ first /\ vagrant_cloud.IP m = ip
                        /\ exists r, r ∈ vagrant_cloud.Roles m
                                     /\ string_le "kubernetes-pool" r.
Proof.
  unfold vagrant_cloud.List.
  destruct (vagrant_cloud.saltLogin api v) as [token|err]; [|discriminate].
  unfold vagrant_cloud.saltMinions.
  destruct (vagrant_cloud.getMinions _ _ _) as [[[|first rest]]|err] eqn:Hget;
    simpl; try discriminate.
  intros [= <-]. exists token, first, rest.
  split; [reflexivity|]. split; [exact Hget|]. split.
  - rewrite length_fmap, saltMinionsByRole_unfold. simpl.
    etransitivity; [apply List.filter_length_le|].
    rewrite !length_fmap. reflexivity.
  - intros ip Hip. apply list_elem_of_fmap in Hip as (value & -> & Hvalue).
    apply kept_iff in Hvalue as (m & Hm & -> & Hr).
    apply list_elem_of_fmap in Hm as ([name m'] & -> & Hm).
    exists name, m'. repeat split; assumption.
Qed.

End VagrantCoverage.

(* ===================================================================== *)
(** * The properties at work on the samples *)
(* ===================================================================== *)

Section Samples.

Local Abbreviation doRequest :=
  (client.doRequest "success" samples.GoString
     (decodeStatus := samples.decodeStatus)).
Local Abbreviation rawRequest :=
  (client.rawRequest "success" samples.GoString samples.NewRequest
     (decodeStatus := samples.decodeStatus) (decodeTarget := samples.decodeID)).
Local Abbreviation answer code text body :=
  (http.mkResponse code text (http.mkBody body None)).
Local Abbreviation serving code text body :=
  (samples.clientOf (samples.server code text body)).
Local Abbreviation sent :=
  (http.SetBasicAuth "admin" "secret" samples.getPod).

Ltac in_range :=
  unfold client.inRange, http.StatusOK, http.StatusPartialContent,
    http.StatusConflict; simpl; lia.

Ltac no_status :=
  let st := fresh "st" in
  let Hdec := fresh "Hdec" in
  intros st [Hdec _]; vm_compute in Hdec; discriminate Hdec.

(** GET pods/pod-1 answered 200 with a working status. *)
Lemma doRequest_non_success_status_fails_witness :
  fst (doRequest (serving 200 "200 OK" "working") samples.getPod [])
  = (None, Some (StatusErr samples.working))
  /\ snd (fst (doRequest (serving 200 "200 OK" "working") samples.getPod []))
     <> None.
Proof.
  apply (doRequest_non_success_status_fails "success" samples.GoString
           (decodeStatus := samples.decodeStatus) (serving 200 "200 OK" "working") samples.getPod
           (answer 200 "200 OK" "working") "working" samples.working []).
  - split; reflexivity.
  - split; [reflexivity|discriminate].
  - discriminate.
  - in_range.
Defined.

(** A 409 with a working status, and a 409 with a body that is no status. *)
Lemma doRequest_conflict_witness :
  fst (doRequest (serving 409 "409 Conflict" "working") samples.getPod [])
  = (None, Some (StatusErr samples.working))
  /\ fst (doRequest (serving 409 "409 Conflict" "conflict") samples.getPod [])
     = (None,
        Some (Errorf "request [GET http://master/api/v1beta1/pods/pod-1] failed (409) 409 Conflict: conflict")).
Proof.
  split.
  - apply (proj1 (doRequest_conflict "success" samples.GoString
                    (decodeStatus := samples.decodeStatus)
                    (serving 409 "409 Conflict" "working") samples.getPod
                    (answer 409 "409 Conflict" "working") "working" []
                    (conj eq_refl eq_refl) eq_refl)).
    split; [reflexivity|discriminate].
  - apply (proj2 (doRequest_conflict "success" samples.GoString
                    (decodeStatus := samples.decodeStatus)
                    (serving 409 "409 Conflict" "conflict") samples.getPod
                    (answer 409 "409 Conflict" "conflict") "conflict" []
                    (conj eq_refl eq_refl) eq_refl)).
    no_status.
Defined.

(** GET pods/pod-1 answered 200 with the pod: the target is filled. *)
Lemma rawRequest_success_fills_target_witness :
  fst (doRequest (serving 200 "200 OK" "pod-1") samples.getPod [])
  = (Some "pod-1", None)
  /\ fst (rawRequest (serving 200 "200 OK" "pod-1") "GET" "pods/pod-1" None
            (Some "") [])
     = (Some "pod-1", None, Some "pod-1").
Proof.
  apply (rawRequest_success_fills_target "success" samples.GoString
           samples.NewRequest (decodeStatus := samples.decodeStatus)
           (decodeTarget := samples.decodeID) (serving 200 "200 OK" "pod-1")
           "GET" "pods/pod-1" None
           samples.getPod (answer 200 "200 OK" "pod-1") "pod-1" "" []).
  - reflexivity.
  - split; reflexivity.
  - in_range.
  - left. intros st [Hdec Hkind]. vm_compute in Hdec.
    injection Hdec as <-. apply Hkind. reflexivity.
Defined.

(** An update of a resource at version 0, with a request builder that
    would send. *)
Lemma update_version_zero_sends_nothing_witness :
  client.UpdatePod unit samples.Sprintv samples.putInto
    (serving 200 "200 OK" "pod-1") samples.stale []
  = ((inhabitant,
      Some (Errorf "invalid update object, missing resource version: {...}")),
     [])
  /\ sends (snd (client.UpdatePod unit samples.Sprintv samples.putInto
                   (serving 200 "200 OK" "pod-1")
                   (api.mkObject "x" 3%N tt) [])) = 1%nat.
Proof.
  split; [|reflexivity].
  apply (proj1 (update_version_zero_sends_nothing unit unit unit
                  samples.Sprintv samples.putInto
                  (serving 200 "200 OK" "pod-1")
                  samples.stale samples.stale samples.stale [])).
  reflexivity.
Defined.

(** A 200 whose body is an empty object, decoded into a pod ID. *)
Lemma rawRequest_decode_failure_keeps_body_witness :
  rawRequest (serving 200 "200 OK" "{}") "GET" "pods/pod-1" None (Some "") []
  = ((Some "{}", Some (LibErr "json: cannot unmarshal object"), Some ""),
     [EvDo sent; EvReadAll; EvDecodeInto "{}"; EvClose; EvDecodeInto "{}";
      EvInfof ("Failed to parse: {}" +:+ newline)]).
Proof.
  apply (rawRequest_decode_failure_keeps_body "success" samples.GoString
           samples.NewRequest (decodeStatus := samples.decodeStatus)
           (decodeTarget := samples.decodeID) (serving 200 "200 OK" "{}")
           "GET" "pods/pod-1" None samples.getPod "{}" "" ""
           (LibErr "json: cannot unmarshal object") []
           [EvDo sent; EvReadAll; EvDecodeInto "{}"; EvClose]);
    reflexivity.
Defined.

(** A 503 whose body is no status. *)
Lemma doRequest_without_status_witness :
  fst (doRequest (serving 503 "503 Service Unavailable" "oops") samples.getPod [])
  = (None,
     Some (Errorf "request [GET http://master/api/v1beta1/pods/pod-1] failed (503) 503 Service Unavailable: oops"))
  /\ (snd (fst (doRequest (serving 503 "503 Service Unavailable" "oops")
                  samples.getPod [])) = None
      <-> client.inRange 503).
Proof.
  apply (doRequest_without_status "success" samples.GoString
           (decodeStatus := samples.decodeStatus) (serving 503 "503 Service Unavailable" "oops") samples.getPod
           (answer 503 "503 Service Unavailable" "oops") "oops" []).
  - split; reflexivity.
  - no_status.
Defined.

(** A 404, although its body is a working status. *)
Lemma doRequest_out_of_range_witness :
  fst (doRequest (serving 404 "404 Not Found" "working") samples.getPod [])
  = (None,
     Some (Errorf "request [GET http://master/api/v1beta1/pods/pod-1] failed (404) 404 Not Found: working")).
Proof.
  apply (doRequest_out_of_range "success" samples.GoString
           (decodeStatus := samples.decodeStatus) (serving 404 "404 Not Found" "working") samples.getPod
           (answer 404 "404 Not Found" "working") "working" []).
  - split; reflexivity.
  - in_range.
  - intros [Hcode _]. discriminate Hcode.
Defined.

(** The two labels of [samples.tiers], visited tier first. *)
Lemma String_round_trip_witness :
  labels.fromString (labels.StringOf [("tier", "frontend"); ("env", "prod")])
  = samples.tiers
  /\ labels.StringOf [("tier", "frontend"); ("env", "prod")]
     = labels.String samples.tiers.
Proof.
  apply String_round_trip.
  - unfold labels.plainSet, samples.tiers.
    apply map_Forall_insert_2; [split; reflexivity|].
    apply map_Forall_insert_2; [split; reflexivity|].
    apply map_Forall_empty.
  - vm_compute. apply perm_swap.
Defined.

(** A server that cannot be reached: the send is the only call. *)
Lemma doRequest_transport_error_witness :
  doRequest (samples.clientOf samples.unreachable) samples.getPod []
  = ((None, Some (LibErr "dial tcp: connection refused")), [EvDo sent]).
Proof.
  apply (doRequest_transport_error "success" samples.GoString
           (decodeStatus := samples.decodeStatus)
           (samples.clientOf samples.unreachable) samples.getPod
           (LibErr "dial tcp: connection refused") []).
  reflexivity.
Defined.

End Samples.

Section FurtherSamples.

Local Abbreviation doRequest :=
  (client.doRequest "success" samples.GoString
     (decodeStatus := samples.decodeStatus)).
Local Abbreviation rawRequest :=
  (client.rawRequest "success" samples.GoString samples.NewRequest
     (decodeStatus := samples.decodeStatus) (decodeTarget := samples.decodeID)).
Local Abbreviation serving code text body :=
  (samples.clientOf (samples.server code text body)).

(** A 200 that carries the pod: the success is traced back to it. *)
Lemma doRequest_success_sound_witness :
  exists response body,
    client.receives (serving 200 "200 OK" "pod-1") samples.getPod response body
    /\ client.inRange (http.StatusCode response)
    /\ fst (doRequest (serving 200 "200 OK" "pod-1") samples.getPod [])
       = (Some body, None)
    /\ (client.noStatus (decodeStatus := samples.decodeStatus) body
        \/ exists st,
             DecodeInto (Decodable := samples.decodeStatus) body api.zeroStatus
             = (st, None)
             /\ api.status st = "success").
Proof.
  apply (doRequest_success_sound "success" samples.GoString
           (decodeStatus := samples.decodeStatus)
           (serving 200 "200 OK" "pod-1") samples.getPod []).
  reflexivity.
Defined.

(** A request with an empty method is refused before anything is sent. *)
Lemma rawRequest_bad_request_witness :
  rawRequest (serving 200 "200 OK" "pod-1") "" "pods/pod-1" None (Some "") []
  = ((None, Some (LibErr "net/http: invalid method"), Some ""), []).
Proof.
  apply (rawRequest_bad_request "success" samples.GoString samples.NewRequest
           (decodeStatus := samples.decodeStatus)
           (decodeTarget := samples.decodeID)
           (serving 200 "200 OK" "pod-1") "" "pods/pod-1" None (Some "")
           (LibErr "net/http: invalid method") []).
  reflexivity.
Defined.

(** The empty target comes back as pod-1: the request went through. *)
Lemma rawRequest_target_changes_only_on_success_witness :
  exists request body t',
    samples.NewRequest "GET"
      (client.makeURL (serving 200 "200 OK" "pod-1") "pods/pod-1") None
    = inl request
    /\ doRequest (serving 200 "200 OK" "pod-1") request [] = ((body, None), t')
    /\ snd (fst (rawRequest (serving 200 "200 OK" "pod-1") "GET" "pods/pod-1"
                   None (Some "") []))
       = Some (fst (DecodeInto (Decodable := samples.decodeID)
                      (client.bytesOf body) "")).
Proof.
  apply (rawRequest_target_changes_only_on_success "success" samples.GoString
           samples.NewRequest (decodeStatus := samples.decodeStatus)
           (decodeTarget := samples.decodeID)
           (serving 200 "200 OK" "pod-1") "GET" "pods/pod-1" None "" []).
  vm_compute. discriminate.
Defined.

Lemma tiers_plain : labels.plainSet samples.tiers.
Proof.
  unfold labels.plainSet, samples.tiers.
  apply map_Forall_insert_2; [split; reflexivity|].
  apply map_Forall_insert_2; [split; reflexivity|].
  apply map_Forall_empty.
Defined.

Lemma tiers_not_empty : samples.tiers <> ∅.
Proof.
  intros Hempty. apply (f_equal (fun ls : gmap string string => ls !! "env")) in Hempty.
  vm_compute in Hempty. discriminate Hempty.
Defined.

(** The two labels written in either order of insertion. *)
Lemma String_injective_witness :
  samples.tiers = <["tier" := "frontend"]> (<["env" := "prod"]> ∅).
Proof.
  apply (String_injective samples.tiers
           (<["tier" := "frontend"]> (<["env" := "prod"]> ∅))).
  - exact tiers_plain.
  - apply map_Forall_insert_2; [split; reflexivity|].
    apply map_Forall_insert_2; [split; reflexivity|].
    apply map_Forall_empty.
  - vm_compute. reflexivity.
Defined.

Lemma String_pieces_witness :
  Split (labels.String samples.tiers) ","
    ≡ₚ labels.entryText <$> map_to_list samples.tiers
  /\ Sorted string_le (Split (labels.String samples.tiers) ",")
  /\ length (Split (labels.String samples.tiers) ",") = size samples.tiers.
Proof.
  apply (String_pieces samples.tiers); [exact tiers_plain|exact tiers_not_empty].
Defined.

Lemma String_shows_Get_witness :
  "env=prod" ∈ Split (labels.String samples.tiers) ",".
Proof.
  apply (String_shows_Get samples.tiers "env"); [exact tiers_plain|].
  exists "prod". vm_compute. reflexivity.
Defined.

(** The minion of the pool is kept, next to the master. *)
Lemma saltMinionsByRole_keeps_members_witness :
  vagrant_cloud.sortRoles samples.poolMinion
  ∈ fst (vagrant_cloud.saltMinionsByRole
           [samples.saltMaster; samples.poolMinion] "kubernetes-pool").
Proof.
  apply (saltMinionsByRole_keeps_members
           [samples.saltMaster; samples.poolMinion] "kubernetes-pool"
           samples.poolMinion).
  - apply list_elem_of_further, list_elem_of_here.
  - apply list_elem_of_here.
Defined.

(** The master, kept for salt-master, is kept for kubernetes-pool. *)
Lemma saltMinionsByRole_antitone_witness :
  samples.saltMaster
  ∈ fst (vagrant_cloud.saltMinionsByRole [samples.saltMaster] "kubernetes-pool").
Proof.
  apply (saltMinionsByRole_antitone [samples.saltMaster]
           "kubernetes-pool" "salt-master" samples.saltMaster).
  - reflexivity.
  - vm_compute. apply list_elem_of_here.
Defined.

Lemma SearchStrings_lower_bound_witness :
  (vagrant_cloud.SearchStrings ["kubernetes-master"; "salt-master"] "kubernetes-pool"
   <= 2)%nat
  /\ forall k r, ["kubernetes-master"; "salt-master"] !! k = Some r ->
       ((k < vagrant_cloud.SearchStrings ["kubernetes-master"; "salt-master"]
               "kubernetes-pool")%nat
        <-> ~ string_le "kubernetes-pool" r).
Proof.
  apply (SearchStrings_lower_bound ["kubernetes-master"; "salt-master"]
           "kubernetes-pool").
  repeat constructor.
Defined.

Lemma List_complete_witness :
  exists ips,
    vagrant_cloud.List samples.saltCluster vagrant_cloud.newVagrantCloud ""
    = vagrant_cloud.Value ips
    /\ "10.245.2.2" ∈ ips.
Proof.
  apply (List_complete samples.saltCluster vagrant_cloud.newVagrantCloud ""
           (vagrant_cloud.mkSaltToken "6d1b722e" "vagrant" "pam")
           [("kubernetes-master", samples.saltMaster);
            ("kubernetes-minion-1", samples.poolMinion)] []
           "kubernetes-minion-1" samples.poolMinion).
  - reflexivity.
  - reflexivity.
  - apply list_elem_of_further, list_elem_of_here.
  - apply list_elem_of_here.
Defined.

Lemma List_sound_witness :
  exists token first rest,
    vagrant_cloud.saltLogin samples.saltCluster vagrant_cloud.newVagrantCloud
    = inl token
    /\ vagrant_cloud.getMinions samples.saltCluster
         (vagrant_cloud.saltURL vagrant_cloud.newVagrantCloud +:+ "/minions")
         (vagrant_cloud.Token token)
       = inl (vagrant_cloud.mkSaltMinionsResponse (first :: rest))
    /\ (length ["10.245.1.2"; "10.245.2.2"] <= length first)%nat
    /\ forall ip, ip ∈ ["10.245.1.2"; "10.245.2.2"] ->
         exists name m, (name, m) ∈ first /\ vagrant_cloud.IP m = ip
                        /\ exists r, r ∈ vagrant_cloud.Roles m
                                     /\ string_le "kubernetes-pool" r.
Proof.
  apply (List_sound samples.saltCluster vagrant_cloud.newVagrantCloud ""
           ["10.245.1.2"; "10.245.2.2"]).
  reflexivity.
Defined.

End FurtherSamples.
